(** * The registration and dispatch engine of [compat/torch/library.h]

    A shallow embedding of the type-erased invocation layer: [FunctionArgs],
    [FunctionResult], [CppFunction], [ClassRegistry], the [class_] builder
    and [OperatorRegistry], followed by the properties the specification
    states about them.

    Conventions of the embedding.
    - A C++ call that may throw is a computation in the monad [M]: it takes
      the state of the rest of the program (the [World] the registered
      closures and the value conversions can read and write) and gives back
      an [outcome] and the new state.  An effect that happened before a
      [throw] stays in the state, as in C++.
    - What a call throws is either an object of a class derived from
      [std::exception], with its dynamic class and its [what()] message (the
      header itself raises only such objects), or a value of any other type
      ([throw 42;]).  The handlers of the header are all
      [catch (const std::exception&)]: they see the former and let the latter
      pass.
    - The two registries are process-wide singletons; their content is
      passed explicitly.  Registered closures act on [World], not on the
      registries. *)

From Stdlib Require Import ZArith Floats.SpecFloat.
From Stdlib Require Import Strings.Ascii.
From stdpp Require Import base option list strings pretty gmap fin_maps.

Open Scope string_scope.
Open Scope nat_scope.
Open Scope list_scope.

(** ** Exceptions and outcomes *)

(** The dynamic class of an object derived from [std::exception]: the two
    classes the header raises, or another one, known by its name. *)
Inductive exception_type :=
  | runtime_error
  | out_of_range
  | other_exception_class (name : string).

Record exception := Exception { exception_class : exception_type; what : string }.

(** A thrown value of a type that is not derived from [std::exception]. *)
Inductive non_std_value :=
  | thrown_int (z : Z)
  | thrown_c_str (s : string)
  | thrown_object (type_name : string).

(** What a [throw] expression throws. *)
Inductive thrown :=
  | Std (e : exception)
  | NonStd (v : non_std_value).

Coercion Std : exception >-> thrown.

Inductive outcome (A : Type) :=
  | Returns (a : A)
  | Throws (t : thrown).
Arguments Returns {A} a.
Arguments Throws {A} t.

Definition is_returns {A} (o : outcome A) : bool :=
  match o with Returns _ => true | Throws _ => false end.

Definition M (W A : Type) : Type := W → outcome A * W.

Definition ret {W A} (a : A) : M W A := λ w, (Returns a, w).

Definition throw {W A} (t : thrown) : M W A := λ w, (Throws t, w).

Definition bind {W A B} (m : M W A) (k : A → M W B) : M W B :=
  λ w, match m w with
       | (Returns a, w') => k a w'
       | (Throws t, w') => (Throws t, w')
       end.

(** [try { m } catch (const std::exception& e) { h e }]: the handler runs
    for an object derived from [std::exception]; any other thrown value
    leaves the block as it is. *)
Definition try_catch {W A} (m : M W A) (h : exception → M W A) : M W A :=
  λ w, match m w with
       | (Returns a, w') => (Returns a, w')
       | (Throws (Std e), w') => h e w'
       | (Throws (NonStd v), w') => (Throws (NonStd v), w')
       end.

Declare Scope cpp_scope.
Delimit Scope cpp_scope with cpp.
Notation "x <- m ;; k" := (bind m (λ x, k))
  (at level 100, m at next level, right associativity) : cpp_scope.
Open Scope cpp_scope.

(** [std::to_string] on a [size_t]. *)
Definition to_string (n : nat) : string := pretty n.

(** ** IValue *)

(** Modelled from the spec: [ATen/core/ivalue.h] is not among the sources.
    Section 3 describes the value container as a closed tagged union over
    none, boolean, integer, float, string and opaque object reference, in
    which "none" is distinguishable from every payload-bearing variant.
    [IValue_default] is the default constructor [IValue()], which the header
    uses as the void result. *)
Inductive IValue :=
  | INone
  | IBool (b : bool)
  | IInt (z : Z)
  | IDouble (d : spec_float)
  | IString (s : string)
  | IObject (handle : positive).

Definition IValue_default : IValue := INone.

Definition is_none (v : IValue) : bool :=
  match v with INone => true | _ => false end.

Global Instance IValue_inhabited : Inhabited IValue := populate INone.

(** Order in which the operands of one call expression are evaluated.  C++
    leaves it to the compiler; [std::make_tuple(get<Types>(I)...)] runs its
    conversions in that order. *)
Inductive evaluation_order := LeftToRight | RightToLeft.

(** What the header takes from its environment: the program state, the
    static types a caller can request with their run-time representation
    and [typeid(T).name()], and the members of [IValue] the header calls
    ([type_string], [try_convert_to<T>], the converting constructor). *)
Class Host := {
  World : Type;
  Ty : Type;
  denote : Ty → Type;
  typeid_name : Ty → string;
  type_string : IValue → string;
  try_convert_to : ∀ T : Ty, IValue → M World (option (denote T));
  box : ∀ T : Ty, denote T → IValue;
  argument_order : evaluation_order
}.

(** ** FunctionArgs *)

Record FunctionArgs := { args_ : list IValue }.

Definition FunctionArgs_default : FunctionArgs := {| args_ := [] |}.

Definition from_vector (args_vec : list IValue) : FunctionArgs :=
  {| args_ := args_vec |}.

(** The argument shapes [add_arg] tells apart with [if constexpr]. *)
Inductive cpp_arg :=
  | arg_c_str (s : string)
  | arg_bool (b : bool)
  | arg_integer (z : Z)
  | arg_floating (d : spec_float)
  | arg_std_string (s : string)
  | arg_IValue (v : IValue)
  | arg_object (handle : positive).

Definition add_arg (arg : cpp_arg) (self : FunctionArgs) : FunctionArgs :=
  match arg with
  | arg_c_str s => {| args_ := args_ self ++ [IString s] |}
  | arg_bool b => {| args_ := args_ self ++ [IBool b] |}
  | arg_integer z => {| args_ := args_ self ++ [IInt z] |}
  | arg_floating d => {| args_ := args_ self ++ [IDouble d] |}
  | arg_std_string s => {| args_ := args_ self ++ [IString s] |}
  | arg_IValue v => {| args_ := args_ self ++ [v] |}
  | arg_object h => {| args_ := args_ self ++ [IObject h] |}
  end.

(** The variadic constructor [FunctionArgs(Args&&... args)]. *)
Definition FunctionArgs_of (args : list cpp_arg) : FunctionArgs :=
  foldl (λ self arg, add_arg arg self) FunctionArgs_default args.

Definition size (self : FunctionArgs) : nat := length (args_ self).

Definition empty (self : FunctionArgs) : bool :=
  match args_ self with [] => true | _ => false end.

(** What evaluating an expression can do when the language itself does not
    define every case: yield a value, raise an exception, or have undefined
    behaviour. *)
Inductive behaviour (A : Type) :=
  | Yields (a : A)
  | Raises (e : exception)
  | UndefinedBehaviour.
Arguments Yields {A} a.
Arguments Raises {A} e.
Arguments UndefinedBehaviour {A}.

(** [operator[]] is [args_[index]], the unchecked subscript of
    [std::vector]: outside [0, size) nothing is raised and the read is
    undefined. *)
Definition subscript (self : FunctionArgs) (index : nat) : behaviour IValue :=
  match args_ self !! index with
  | Some v => Yields v
  | None => UndefinedBehaviour
  end.

Definition get_value (self : FunctionArgs) (index : nat) : outcome IValue :=
  if bool_decide (length (args_ self) ≤ index)%nat then
    Throws (Exception out_of_range "Argument index out of range")
  else Returns (args_ self !!! index).

Fixpoint tuple `{Host} (Types : list Ty) : Type :=
  match Types with
  | [] => unit
  | T :: Types' => denote T * tuple Types'
  end.

Section FunctionArgs.
Context `{Host}.

Definition get (T : Ty) (index : nat) (self : FunctionArgs) : M World (denote T) :=
  if bool_decide (length (args_ self) ≤ index)%nat then
    throw (Exception out_of_range "Argument index out of range")
  else
    let arg := args_ self !!! index in
    converted <- try_convert_to T arg ;;
    match converted with
    | Some result => ret result
    | None =>
        throw (Exception runtime_error
                 ("Cannot convert argument " +:+ to_string index +:+ " from " +:+
                  type_string arg +:+ " to " +:+ typeid_name T))
    end.

(** [std::make_tuple(get<Types>(I)...)], the pack starting at index [I]. *)
Fixpoint to_tuple_impl (Types : list Ty) (I : nat) (self : FunctionArgs)
  : M World (tuple Types) :=
  match Types with
  | [] => ret tt
  | T :: Types' =>
      match argument_order with
      | LeftToRight =>
          x <- get T I self ;;
          rest <- to_tuple_impl Types' (S I) self ;;
          ret (x, rest)
      | RightToLeft =>
          rest <- to_tuple_impl Types' (S I) self ;;
          x <- get T I self ;;
          ret (x, rest)
      end
  end.

Definition to_tuple (Types : list Ty) (self : FunctionArgs) : M World (tuple Types) :=
  if bool_decide (length Types ≠ length (args_ self)) then
    throw (Exception runtime_error
             ("Argument count mismatch: expected " +:+ to_string (length Types) +:+
              ", got " +:+ to_string (length (args_ self))))
  else to_tuple_impl Types 0 self.
End FunctionArgs.

(** ** FunctionResult *)

Record FunctionResult := { value_ : IValue }.

Definition FunctionResult_default : FunctionResult := {| value_ := IValue_default |}.

Definition FunctionResult_of_IValue (value : IValue) : FunctionResult :=
  {| value_ := value |}.

Definition has_value (self : FunctionResult) : bool := negb (is_none (value_ self)).

Definition void_result : FunctionResult := FunctionResult_default.

Section FunctionResult.
Context `{Host}.

(** The template constructor [FunctionResult(T&& value)]. *)
Definition FunctionResult_of (T : Ty) (value : denote T) : FunctionResult :=
  {| value_ := box T value |}.

Definition FunctionResult_get (T : Ty) (self : FunctionResult) : M World (denote T) :=
  if is_none (value_ self) then
    throw (Exception runtime_error "No return value (void function)")
  else
    converted <- try_convert_to T (value_ self) ;;
    match converted with
    | Some result => ret result
    | None =>
        throw (Exception runtime_error
                 ("Cannot convert result from " +:+ type_string (value_ self) +:+
                  " to " +:+ typeid_name T))
    end.
End FunctionResult.

(** ** function_traits *)

Section function_traits.
Context `{Host}.

(** The return type [R] of a signature; [None] is [void]. *)
Definition return_value (R : option Ty) : Type :=
  match R with Some T => denote T | None => unit end.

(** [IValue(result)] for a value of type [R], [IValue()] for [void]. *)
Definition IValue_of_result (R : option Ty) : return_value R → IValue :=
  match R with
  | Some T => box T
  | None => λ _, IValue_default
  end.

(** A free function [R(Args...)]. *)
Record function := {
  fn_Args : list Ty;
  fn_R : option Ty;
  fn_body : tuple fn_Args → M World (return_value fn_R)
}.

(** A pointer to a member function of the registered class, with
    parameter types [Args] and return type [R]; [C] is the type of the
    handle through which the instance is reached. *)
Record member_function (C : Ty) := {
  mf_Args : list Ty;
  mf_R : option Ty;
  mf_body : denote C → tuple mf_Args → M World (return_value mf_R)
}.
Arguments mf_Args {C} _.
Arguments mf_R {C} _.
Arguments mf_body {C} _.

Definition call_function (func : function) (args : FunctionArgs) : M World IValue :=
  if bool_decide (size args ≠ length (fn_Args func)) then
    throw (Exception runtime_error
             ("Function expects " +:+ to_string (length (fn_Args func)) +:+
              " arguments, got " +:+ to_string (size args)))
  else
    args_without_ref <- to_tuple_impl (fn_Args func) 0 args ;;
    result <- fn_body func args_without_ref ;;
    ret (IValue_of_result (fn_R func) result).

(** [args.size() - 1] on [size_t]: wraps around when [args] is empty. *)
Definition size_minus_one (args : FunctionArgs) : N :=
  N.modulo (N.of_nat (size args) + 2 ^ 64 - 1) (2 ^ 64)%N.

Definition call_method {C : Ty} (func : member_function C) (instance : denote C)
    (args : FunctionArgs) : M World IValue :=
  if bool_decide (size args ≠ length (mf_Args func) + 1)%nat then
    throw (Exception runtime_error
             ("Method expects " +:+ to_string (length (mf_Args func)) +:+
              " arguments (plus this), got " +:+ pretty (size_minus_one args)))
  else
    args_without_ref <- to_tuple_impl (mf_Args func) 1 args ;;
    result <- mf_body func instance args_without_ref ;;
    ret (IValue_of_result (mf_R func) result).

Definition invoke_function (func : function) (args : FunctionArgs) : M World IValue :=
  call_function func args.

Definition invoke_member_function {C : Ty} (func : member_function C)
    (instance : denote C) (args : FunctionArgs) : M World IValue :=
  call_method func instance args.
End function_traits.

Arguments mf_Args {_ C} _.
Arguments mf_R {_ C} _.
Arguments mf_body {_ C} _.

(** ** CppFunction *)

Section CppFunction.
Context `{Host}.

Definition CallableFunction : Type := FunctionArgs → M World FunctionResult.

Record CppFunction := { func_ : option CallableFunction }.

Definition CppFunction_default : CppFunction := {| func_ := None |}.

(** Constructor from [std::function<IValue(const FunctionArgs&)>]. *)
Definition CppFunction_of_std_function (func : FunctionArgs → M World IValue)
  : CppFunction :=
  {| func_ := Some (λ args,
       try_catch (result <- func args ;; ret (FunctionResult_of_IValue result))
         (λ e, throw (Exception runtime_error ("Constructor failed: " +:+ what e)))) |}.

(** Constructor from a function or a function pointer. *)
Definition CppFunction_of_function (f : function) : CppFunction :=
  {| func_ := Some (λ args,
       try_catch (result <- invoke_function f args ;; ret (FunctionResult_of_IValue result))
         (λ e, throw (Exception runtime_error ("Function call failed: " +:+ what e)))) |}.

(** Constructor from a callable object invocable with [const FunctionArgs&]
    (a lambda, a function object), here one that yields an [IValue]. *)
Definition CppFunction_of_callable (f : FunctionArgs → M World IValue) : CppFunction :=
  {| func_ := Some (λ args,
       try_catch (result <- f args ;; ret (FunctionResult_of_IValue result))
         (λ e, throw (Exception runtime_error ("Lambda execution failed: " +:+ what e)))) |}.

(** [call()] and [call(Args&&... args)]. *)
Definition call (self : CppFunction) (args : list cpp_arg) : M World FunctionResult :=
  match func_ self with
  | None => throw (Exception runtime_error "CppFunction is not initialized")
  | Some func => func (FunctionArgs_of args)
  end.

Definition call_with_args (self : CppFunction) (args : FunctionArgs)
  : M World FunctionResult :=
  match func_ self with
  | None => throw (Exception runtime_error "CppFunction is not initialized")
  | Some func => func args
  end.

Definition valid (self : CppFunction) : bool :=
  match func_ self with Some _ => true | None => false end.
End CppFunction.

(** ** ClassRegistry *)

Section ClassRegistry.
Context `{Host}.

Record ClassRegistration := {
  namespace_name : string;
  class_name : string;
  qualified_name : string;
  constructors : list CppFunction;
  methods : gmap string CppFunction;
  static_methods : gmap string CppFunction
}.

Definition ClassRegistration_new (ns name : string) : ClassRegistration :=
  {| namespace_name := ns;
     class_name := name;
     qualified_name := ns +:+ "::" +:+ name;
     constructors := [];
     methods := ∅;
     static_methods := ∅ |}.

(** [reg->constructors.push_back(func)] *)
Definition push_constructor (func : CppFunction) (reg : ClassRegistration)
  : ClassRegistration :=
  {| namespace_name := namespace_name reg;
     class_name := class_name reg;
     qualified_name := qualified_name reg;
     constructors := constructors reg ++ [func];
     methods := methods reg;
     static_methods := static_methods reg |}.

(** [reg->methods[method_name] = func] *)
Definition set_method (method_name : string) (func : CppFunction)
    (reg : ClassRegistration) : ClassRegistration :=
  {| namespace_name := namespace_name reg;
     class_name := class_name reg;
     qualified_name := qualified_name reg;
     constructors := constructors reg;
     methods := <[method_name := func]> (methods reg);
     static_methods := static_methods reg |}.

(** [reg->static_methods[method_name] = func] *)
Definition set_static_method (method_name : string) (func : CppFunction)
    (reg : ClassRegistration) : ClassRegistration :=
  {| namespace_name := namespace_name reg;
     class_name := class_name reg;
     qualified_name := qualified_name reg;
     constructors := constructors reg;
     methods := methods reg;
     static_methods := <[method_name := func]> (static_methods reg) |}.

Record ClassRegistry := { classes_ : gmap string ClassRegistration }.

Definition register_class (namespace_name class_name : string) (self : ClassRegistry)
  : ClassRegistry :=
  let qualified_name := namespace_name +:+ "::" +:+ class_name in
  {| classes_ := <[qualified_name := ClassRegistration_new namespace_name class_name]>
                   (classes_ self) |}.

Definition register_constructor (qualified_name : string) (func : CppFunction)
    (self : ClassRegistry) : outcome ClassRegistry :=
  match classes_ self !! qualified_name with
  | None => Throws (Exception runtime_error ("Class " +:+ qualified_name +:+ " not found"))
  | Some reg =>
      Returns {| classes_ :=
        <[qualified_name := push_constructor func reg]> (classes_ self) |}
  end.

Definition register_method (qualified_name method_name : string) (func : CppFunction)
    (self : ClassRegistry) : outcome ClassRegistry :=
  match classes_ self !! qualified_name with
  | None => Throws (Exception runtime_error ("Class " +:+ qualified_name +:+ " not found"))
  | Some reg =>
      Returns {| classes_ :=
        <[qualified_name := set_method method_name func reg]> (classes_ self) |}
  end.

Definition register_static_method (qualified_name method_name : string)
    (func : CppFunction) (self : ClassRegistry) : outcome ClassRegistry :=
  match classes_ self !! qualified_name with
  | None => Throws (Exception runtime_error ("Class " +:+ qualified_name +:+ " not found"))
  | Some reg =>
      Returns {| classes_ :=
        <[qualified_name := set_static_method method_name func reg]> (classes_ self) |}
  end.

Definition has_class (qualified_name : string) (self : ClassRegistry) : bool :=
  bool_decide (is_Some (classes_ self !! qualified_name)).

Definition has_method (qualified_name method_name : string) (self : ClassRegistry) : bool :=
  match classes_ self !! qualified_name with
  | None => false
  | Some reg => bool_decide (is_Some (methods reg !! method_name))
  end.

Definition has_static_method (qualified_name method_name : string)
    (self : ClassRegistry) : bool :=
  match classes_ self !! qualified_name with
  | None => false
  | Some reg => bool_decide (is_Some (static_methods reg !! method_name))
  end.

Definition call_method_with_args (qualified_name method_name : string)
    (args : FunctionArgs) (self : ClassRegistry) : M World FunctionResult :=
  match classes_ self !! qualified_name with
  | None => throw (Exception runtime_error ("Class " +:+ qualified_name +:+ " not found!"))
  | Some class_reg =>
      match methods class_reg !! method_name with
      | None =>
          throw (Exception runtime_error
                   ("Method " +:+ method_name +:+ " not found in " +:+
                    qualified_name +:+ "!"))
      | Some method =>
          try_catch (result <- call_with_args method args ;; ret result)
            (λ e, throw e)
      end
  end.

(** The [for] loop over [class_reg->constructors], from the constructor
    at the head of [remaining] on, and the [throw] that follows it. *)
Fixpoint try_constructors (qualified_name : string) (remaining : list CppFunction)
    (args : FunctionArgs) : M World FunctionResult :=
  match remaining with
  | [] =>
      throw (Exception runtime_error
               ("No suitable constructor found for " +:+ qualified_name))
  | constructor :: remaining' =>
      try_catch (result <- call_with_args constructor args ;; ret result)
        (λ _, try_constructors qualified_name remaining' args)
  end.

Definition call_constructor_with_args (qualified_name : string) (args : FunctionArgs)
    (self : ClassRegistry) : M World FunctionResult :=
  match classes_ self !! qualified_name with
  | None => throw (Exception runtime_error ("Class " +:+ qualified_name +:+ " not found!"))
  | Some class_reg =>
      match constructors class_reg with
      | [] =>
          throw (Exception runtime_error
                   ("No constructor registered for " +:+ qualified_name))
      | _ => try_constructors qualified_name (constructors class_reg) args
      end
  end.

Definition call_static_method_with_args (qualified_name method_name : string)
    (args : FunctionArgs) (self : ClassRegistry) : M World FunctionResult :=
  match classes_ self !! qualified_name with
  | None => throw (Exception runtime_error ("Class " +:+ qualified_name +:+ " not found!"))
  | Some class_reg =>
      match static_methods class_reg !! method_name with
      | None =>
          throw (Exception runtime_error
                   ("Static method " +:+ method_name +:+ " not found in " +:+
                    qualified_name +:+ "!"))
      | Some method =>
          try_catch (result <- call_with_args method args ;; ret result)
            (λ e, throw e)
      end
  end.
End ClassRegistry.

Section ClassRegistry_instance_call.
Context `{Host}.

(** The overload of [call_method_with_args] that receives the instance
    apart from the other arguments and puts it in front of them. *)
Definition call_method_with_instance (qualified_name method_name : string)
    (instance : IValue) (args : FunctionArgs) (self : ClassRegistry)
  : M World FunctionResult :=
  match classes_ self !! qualified_name with
  | None => throw (Exception runtime_error ("Class " +:+ qualified_name +:+ " not found!"))
  | Some class_reg =>
      match methods class_reg !! method_name with
      | None =>
          throw (Exception runtime_error
                   ("Instance method " +:+ method_name +:+ " not found in " +:+
                    qualified_name +:+ "!"))
      | Some method =>
          try_catch
            (method_args <-
               foldl (λ acc i,
                        method_args <- acc ;;
                        match get_value args i with
                        | Returns v => ret (add_arg (arg_IValue v) method_args)
                        | Throws e => throw e
                        end)
                 (ret (add_arg (arg_IValue instance) FunctionArgs_default))
                 (seq 0 (size args)) ;;
             result <- call_with_args method method_args ;;
             ret result)
            (λ e, throw e)
      end
  end.
End ClassRegistry_instance_call.

(** ** The class registration builder [class_<CurClass>] *)

Section class_.
Context `{Host}.

(** [CurClass] is the static type [intrusive_ptr<CurClass>] of a handle
    to an instance. *)
Record class_ (CurClass : Ty) := {
  namespace_name_ : string;
  class_name_ : string;
  qualified_name_ : string
}.
Arguments namespace_name_ {CurClass} _.
Arguments class_name_ {CurClass} _.
Arguments qualified_name_ {CurClass} _.

Definition class_new (CurClass : Ty) (namespaceName className : string)
    (registry : ClassRegistry) : class_ CurClass * ClassRegistry :=
  ({| namespace_name_ := namespaceName;
      class_name_ := className;
      qualified_name_ := namespaceName +:+ "::" +:+ className |},
   register_class namespaceName className registry).

(** The lambda [constructor_func] of [def(init_types<Types...>)];
    [make_intrusive] is the constructor of [CurClass] with parameter
    types [Types], giving the handle of the new instance. *)
Definition constructor_func (Types : list Ty)
    (make_intrusive : tuple Types → M World positive) (args : FunctionArgs)
  : M World IValue :=
  match Types as Ts return (tuple Ts → M World positive) → M World IValue with
  | [] => λ make_intrusive,
      if bool_decide (size args ≠ 0) then
        throw (Exception runtime_error
                 ("Default constructor expects 0 arguments, got " +:+
                  to_string (size args)))
      else
        instance <- make_intrusive tt ;;
        ret (IObject instance)
  | T :: Types' => λ make_intrusive,
      if bool_decide (size args ≠ length (T :: Types')) then
        throw (Exception runtime_error
                 ("Constructor argument count mismatch: expected " +:+
                  to_string (length (T :: Types')) +:+ ", got " +:+
                  to_string (size args)))
      else
        tuple_args <- to_tuple (T :: Types') args ;;
        instance <- make_intrusive tuple_args ;;
        ret (IObject instance)
  end make_intrusive.

Definition def_init {CurClass : Ty} (Types : list Ty)
    (make_intrusive : tuple Types → M World positive)
    (self : class_ CurClass) (registry : ClassRegistry) : outcome ClassRegistry :=
  register_constructor (qualified_name_ self)
    (CppFunction_of_callable (constructor_func Types make_intrusive)) registry.

(** What [def(name, f)] can be given as [f]: a pointer to a member
    function, or any other callable (a lambda, a [std::function]). *)
Inductive method_callable (CurClass : Ty) :=
  | member_function_pointer (f : member_function CurClass)
  | generic_callable (f : FunctionArgs → M World IValue).
Arguments member_function_pointer {CurClass} f.
Arguments generic_callable {CurClass} f.

(** The lambda [method_func] of [def(name, f)]. *)
Definition method_func {CurClass : Ty} (f : member_function CurClass)
    (args : FunctionArgs) : M World IValue :=
  if bool_decide (size args < 1)%nat then
    throw (Exception runtime_error
             "Instance method requires at least 1 argument (this pointer)")
  else
    instance <- get CurClass 0 args ;;
    invoke_member_function f instance args.

Definition def {CurClass : Ty} (name : string) (f : method_callable CurClass)
    (self : class_ CurClass) (registry : ClassRegistry) : outcome ClassRegistry :=
  match f with
  | member_function_pointer f =>
      register_method (qualified_name_ self) name
        (CppFunction_of_callable (method_func f)) registry
  | generic_callable _ => Returns registry
  end.

(** What [def_static(name, f)] hands to [CppFunction]'s constructors. *)
Inductive static_callable :=
  | static_function (f : function)
  | static_lambda (f : FunctionArgs → M World IValue).

Definition CppFunction_of_static (f : static_callable) : CppFunction :=
  match f with
  | static_function f => CppFunction_of_function f
  | static_lambda f => CppFunction_of_callable f
  end.

Definition def_static {CurClass : Ty} (name : string) (f : static_callable)
    (self : class_ CurClass) (registry : ClassRegistry) : outcome ClassRegistry :=
  register_static_method (qualified_name_ self) name (CppFunction_of_static f) registry.
End class_.

Arguments namespace_name_ {_ CurClass} _.
Arguments class_name_ {_ CurClass} _.
Arguments qualified_name_ {_ CurClass} _.
Arguments member_function_pointer {_ CurClass} f.
Arguments generic_callable {_ CurClass} f.

(** ** DispatchKey *)

Inductive DispatchKey := Undefined | CPU | CUDA.

Global Instance DispatchKey_eq_dec : EqDecision DispatchKey.
Proof. solve_decision. Defined.

Global Instance DispatchKey_countable : Countable DispatchKey.
Proof.
  refine (inj_countable'
            (λ k, match k with Undefined => 0%nat | CPU => 1%nat | CUDA => 2%nat end)
            (λ n, match n with 0%nat => Undefined | 1%nat => CPU | _ => CUDA end) _).
  intros []; reflexivity.
Defined.

Definition dispatch_key_to_string (key : DispatchKey) : string :=
  match key with
  | CPU => "CPU"
  | CUDA => "CUDA"
  | _ => "Undefined"
  end.

(** ** OperatorRegistry *)

Section OperatorRegistry.
Context `{Host}.

Record OperatorRegistration := {
  op_qualified_name : string;
  schema : string;
  implementations : gmap DispatchKey CppFunction
}.

Definition OperatorRegistration_new (name schema_str : string) : OperatorRegistration :=
  {| op_qualified_name := name; schema := schema_str; implementations := ∅ |}.

Record OperatorRegistry := { operators_ : gmap string OperatorRegistration }.

(** Gives the registration of [qualified_name], created when absent, and
    the registry that holds it. *)
Definition get_or_create_operator (qualified_name : string) (self : OperatorRegistry)
  : OperatorRegistration * OperatorRegistry :=
  match operators_ self !! qualified_name with
  | None =>
      let op := OperatorRegistration_new qualified_name "" in
      (op, {| operators_ := <[qualified_name := op]> (operators_ self) |})
  | Some op => (op, self)
  end.

Definition register_schema (qualified_name schema_str : string)
    (self : OperatorRegistry) : OperatorRegistry :=
  let '(op, self) := get_or_create_operator qualified_name self in
  {| operators_ :=
       <[qualified_name :=
           {| op_qualified_name := op_qualified_name op;
              schema := schema_str;
              implementations := implementations op |}]> (operators_ self) |}.

Definition register_implementation (qualified_name : string) (key : DispatchKey)
    (func : CppFunction) (self : OperatorRegistry) : OperatorRegistry :=
  let '(op, self) := get_or_create_operator qualified_name self in
  {| operators_ :=
       <[qualified_name :=
           {| op_qualified_name := op_qualified_name op;
              schema := schema op;
              implementations := <[key := func]> (implementations op) |}]>
         (operators_ self) |}.

Definition find_operator (qualified_name : string) (self : OperatorRegistry)
  : option OperatorRegistration :=
  operators_ self !! qualified_name.

Definition execute_operator (qualified_name : string) (key : DispatchKey)
    (self : OperatorRegistry) : M World bool :=
  match find_operator qualified_name self with
  | None => ret false
  | Some op =>
      match implementations op !! key with
      | Some impl =>
          try_catch (result <- call impl [] ;; ret true) (λ _, ret false)
      | None =>
          (* try fallback to CPU *)
          if bool_decide (key ≠ CPU) then
            match implementations op !! CPU with
            | Some cpu_impl =>
                try_catch (result <- call cpu_impl [] ;; ret true) (λ _, ret false)
            | None => ret false
            end
          else ret false
      end
  end.

Definition execute_operator_with_args (qualified_name : string) (key : DispatchKey)
    (args : list cpp_arg) (self : OperatorRegistry) : M World FunctionResult :=
  match find_operator qualified_name self with
  | None =>
      throw (Exception runtime_error ("Operator " +:+ qualified_name +:+ " not found!"))
  | Some op =>
      match implementations op !! key with
      | Some impl =>
          try_catch (result <- call impl args ;; ret result)
            (λ e, throw (Exception runtime_error
                           ("Error executing operator: " +:+ what e)))
      | None =>
          let no_implementation : M World FunctionResult :=
            throw (Exception runtime_error
                     ("No implementation found for " +:+ qualified_name +:+
                      " with " +:+ dispatch_key_to_string key)) in
          (* try fallback to CPU *)
          if bool_decide (key ≠ CPU) then
            match implementations op !! CPU with
            | Some cpu_impl =>
                try_catch (result <- call cpu_impl args ;; ret result)
                  (λ e, throw (Exception runtime_error
                                 ("Error executing operator (CPU fallback): " +:+
                                  what e)))
            | None => no_implementation
            end
          else no_implementation
      end
  end.
End OperatorRegistry.

(** ** Library *)

(** [std::string::find(c)]: the position of the first [c] in [s], [None]
    for [npos]. *)
Fixpoint find (c : ascii) (s : string) : option nat :=
  match s with
  | EmptyString => None
  | String c' s' => if decide (c' = c) then Some 0 else S <$> find c s'
  end.

(** [Library::extract_op_name]; [String.substring 0 pos] is [substr(0, pos)]. *)
Definition extract_op_name (name_or_schema : string) : string :=
  match find "("%char name_or_schema with
  | Some pos => String.substring 0 pos name_or_schema
  | None => name_or_schema
  end.

Inductive Kind := DEF | IMPL | FRAGMENT.

Definition kind_to_string (kind : Kind) : string :=
  match kind with
  | DEF => "DEF"
  | IMPL => "IMPL"
  | FRAGMENT => "FRAGMENT"
  end.

(** [file_] is a [const char*] that may be null, [line_] a [uint32_t]. *)
Record Library := {
  kind_ : Kind;
  ns_ : string;
  dispatch_key_ : option DispatchKey;
  file_ : option string;
  line_ : N
}.

Definition Library_new (kind : Kind) (ns : string) (dispatch_key : option DispatchKey)
    (file : option string) (line : N) : Library :=
  {| kind_ := kind; ns_ := ns; dispatch_key_ := dispatch_key;
     file_ := file; line_ := line |}.

(** The constructor [Library(const std::string& ns)]. *)
Definition Library_of_namespace (ns : string) : Library :=
  {| kind_ := DEF; ns_ := ns; dispatch_key_ := None; file_ := None; line_ := 0 |}.

(** The libraries that the macros [TORCH_LIBRARY], [TORCH_LIBRARY_FRAGMENT]
    and [TORCH_LIBRARY_IMPL] hand to the body that follows them. *)
Definition TORCH_LIBRARY (ns file : string) (line : N) : Library :=
  Library_new DEF ns None (Some file) line.

Definition TORCH_LIBRARY_FRAGMENT (ns file : string) (line : N) : Library :=
  Library_new FRAGMENT ns None (Some file) line.

Definition TORCH_LIBRARY_IMPL (ns : string) (k : DispatchKey) (file : string) (line : N)
  : Library :=
  Library_new IMPL ns (Some k) (Some file) line.

Section Library.
Context `{Host}.

(** [Library::def(schema)] *)
Definition Library_def (schema_str : string) (self : Library) (registry : OperatorRegistry)
  : OperatorRegistry :=
  match kind_ self with
  | IMPL => registry
  | _ =>
      let op_name := extract_op_name schema_str in
      let qualified_name := ns_ self +:+ "::" +:+ op_name in
      register_schema qualified_name schema_str registry
  end.

(** [Library::def(name_or_schema, f)] *)
Definition Library_def_impl (name_or_schema : string) (f : static_callable)
    (self : Library) (registry : OperatorRegistry) : OperatorRegistry :=
  let op_name := extract_op_name name_or_schema in
  let qualified_name := ns_ self +:+ "::" +:+ op_name in
  let registry :=
    match find "("%char name_or_schema with
    | Some _ => register_schema qualified_name name_or_schema registry
    | None => registry
    end in
  let dispatch_key := default CPU (dispatch_key_ self) in
  register_implementation qualified_name dispatch_key (CppFunction_of_static f) registry.

(** [Library::impl(op_name, f)] *)
Definition Library_impl (op_name : string) (f : static_callable) (self : Library)
    (registry : OperatorRegistry) : OperatorRegistry :=
  let qualified_name := ns_ self +:+ "::" +:+ op_name in
  let dispatch_key := default CPU (dispatch_key_ self) in
  register_implementation qualified_name dispatch_key (CppFunction_of_static f) registry.

(** [Library::class_<CurClass>(className)] *)
Definition Library_class_ (CurClass : Ty) (className : string) (self : Library)
    (registry : ClassRegistry) : class_ CurClass * ClassRegistry :=
  class_new CurClass (ns_ self) className registry.
End Library.

(** The state after a registration statement that may throw: the new
    registry when it returns, the old one when it throws. *)
Definition result_or {A} (o : outcome A) (unchanged : A) : A :=
  match o with Returns a => a | Throws _ => unchanged end.

(** ** A host to run the embedding on

    Four static types, conversions that succeed when the tag of the value
    matches, and a program state that is the log of what has run: every
    conversion attempt appends a line, and so do the closures of the
    examples below. *)

Module Demo.
Inductive demo_type := t_bool | t_int64 | t_string | t_object.

Definition demo_denote (T : demo_type) : Type :=
  match T with
  | t_bool => bool
  | t_int64 => Z
  | t_string => string
  | t_object => positive
  end.

Definition demo_typeid_name (T : demo_type) : string :=
  match T with
  | t_bool => "b"
  | t_int64 => "l"
  | t_string => "Ss"
  | t_object => "P6Object"
  end.

Definition demo_type_string (v : IValue) : string :=
  match v with
  | INone => "None"
  | IBool _ => "Bool"
  | IInt _ => "Int"
  | IDouble _ => "Double"
  | IString _ => "String"
  | IObject _ => "CustomClass"
  end.

Definition demo_convert (T : demo_type) (v : IValue) : option (demo_denote T) :=
  match T as T0, v return option (demo_denote T0) with
  | t_bool, IBool b => Some b
  | t_int64, IInt z => Some z
  | t_string, IString s => Some s
  | t_object, IObject h => Some h
  | _, _ => None
  end.

Definition demo_try_convert_to (T : demo_type) (v : IValue)
  : M (list string) (option (demo_denote T)) :=
  λ log, (Returns (demo_convert T v),
          (log ++ ["convert " +:+ demo_type_string v +:+ " to " +:+ demo_typeid_name T])%list).

Definition demo_box (T : demo_type) : demo_denote T → IValue :=
  match T with
  | t_bool => IBool
  | t_int64 => IInt
  | t_string => IString
  | t_object => IObject
  end.

Definition host (order : evaluation_order) : Host :=
  {| World := list string;
     Ty := demo_type;
     denote := demo_denote;
     typeid_name := demo_typeid_name;
     type_string := demo_type_string;
     try_convert_to := demo_try_convert_to;
     box := demo_box;
     argument_order := order |}.

(** A closure that writes [label] to the log and returns [v]. *)
Definition returning (label : string) (v : IValue) : FunctionArgs → M (list string) IValue :=
  λ _ log, (Returns v, (log ++ [label])%list).

(** A closure that writes [label] to the log and throws. *)
Definition failing (label : string) : FunctionArgs → M (list string) IValue :=
  λ _ log, (Throws (Exception runtime_error "boom"), (log ++ [label])%list).

(** A closure that writes [label] to the log and does [throw 42;]. *)
Definition throwing_int (label : string) : FunctionArgs → M (list string) IValue :=
  λ _ log, (Throws (NonStd (thrown_int 42)), (log ++ [label])%list).
End Demo.

(** ** Vocabulary of the properties *)

(** The catch-and-rethrow of the operator registry: a failure keeps its
    message behind [context], a result and the state pass unchanged.  Only
    a [std::exception] is caught: any other thrown value passes as it is. *)
Definition with_context {W A} (context : string) (r : outcome A * W) : outcome A * W :=
  match r with
  | (Returns a, w) => (Returns a, w)
  | (Throws (Std e), w) => (Throws (Exception runtime_error (context +:+ what e)), w)
  | (Throws (NonStd v), w) => (Throws (NonStd v), w)
  end.

(** What a [CppFunction] makes of the call of the callable it wraps: the
    value becomes a [FunctionResult], a [std::exception] is caught and
    thrown again as a [std::runtime_error] with its message behind
    [context], any other thrown value passes as it is. *)
Definition adapted {W} (context : string) (r : outcome IValue * W)
  : outcome FunctionResult * W :=
  match r with
  | (Returns v, w) => (Returns (FunctionResult_of_IValue v), w)
  | (Throws (Std e), w) => (Throws (Exception runtime_error (context +:+ what e)), w)
  | (Throws (NonStd v), w) => (Throws (NonStd v), w)
  end.

(** The answer of the probe [execute_operator] to the call of an
    implementation: [true] when it returns, [false] when it throws a
    [std::exception]; any other thrown value passes as it is. *)
Definition probe {W A} (r : outcome A * W) : outcome bool * W :=
  match r with
  | (Returns _, w) => (Returns true, w)
  | (Throws (Std _), w) => (Returns false, w)
  | (Throws (NonStd v), w) => (Throws (NonStd v), w)
  end.

Section vocabulary.
Context `{Host}.

(** A registration made on a class registry after [register_class]; one
    that fails (unknown class) throws and leaves the registry as it was. *)
Inductive registration :=
  | add_constructor (qualified_name : string) (func : CppFunction)
  | add_method (qualified_name method_name : string) (func : CppFunction)
  | add_static_method (qualified_name method_name : string) (func : CppFunction).

Definition register (self : ClassRegistry) (r : registration) : ClassRegistry :=
  match r with
  | add_constructor qn func => result_or (register_constructor qn func self) self
  | add_method qn name func => result_or (register_method qn name func self) self
  | add_static_method qn name func =>
      result_or (register_static_method qn name func self) self
  end.

End vocabulary.

Section conversions.
Context `{Host}.

(** The positions of the pack [Types], numbered from [I], each with the
    type requested there. *)
Fixpoint positions (I : nat) (Types : list Ty) : list (nat * Ty) :=
  match Types with
  | [] => []
  | T :: Types' => (I, T) :: positions (S I) Types'
  end.

(** A list taken in the order in which call operands are evaluated. *)
Definition in_order {A} (l : list A) : list A :=
  match argument_order with
  | LeftToRight => l
  | RightToLeft => rev l
  end.

(** A converted value together with its static type. *)
Definition typed_value : Type := sigT denote.

(** The components of a tuple with their positions, numbered from [I]. *)
Fixpoint tuple_values (I : nat) (Types : list Ty) : tuple Types → list (nat * typed_value) :=
  match Types with
  | [] => λ _, []
  | T :: Types' => λ t, (I, existT T t.1) :: tuple_values (S I) Types' t.2
  end.

(** [converts args todo w done failure w']: from state [w], [get] is run
    on the positions of [todo] one after the other until one fails.
    [done] lists the values obtained before that; [failure] is what the
    position that failed threw, [None] when all of [todo]
    converted; [w'] is the state when the run stops.  Positions after a
    failing one are not touched. *)
Inductive converts (args : FunctionArgs)
  : list (nat * Ty) → World → list (nat * typed_value) → option thrown → World → Prop :=
  | converts_nil w : converts args [] w [] None w
  | converts_ok i T todo w x w1 done failure w2 :
      get T i args w = (Returns x, w1) →
      converts args todo w1 done failure w2 →
      converts args ((i, T) :: todo) w ((i, existT T x) :: done) failure w2
  | converts_fail i T todo w e w1 :
      get T i args w = (Throws e, w1) →
      converts args ((i, T) :: todo) w [] (Some e) w1.
End conversions.


(** Registries on the demo host, for running the operations. *)
Module DemoRegistry.
Import Demo.

Definition H : Host := host LeftToRight.
#[local] Existing Instance H.

Definition no_operators : OperatorRegistry := {| operators_ := ∅ |}.

(** [int64_t add(int64_t a, int64_t b)] *)
Definition add : function :=
  Build_function [t_int64; t_int64] (Some t_int64)
    (λ '(a, (b, _)) log, (Returns (a + b)%Z, log ++ ["add"])).

(** "ns::add" has a schema and a CPU implementation only, the function
    [add]; "ns::mul" has a CUDA
    implementation that throws and a CPU implementation that returns;
    "ns::div" has a CPU implementation that throws; "ns::neg" has a schema
    and no implementation; "ns::abs" has the same throwing implementation
    as "ns::mul", under the key Undefined. *)
Definition operators : OperatorRegistry :=
  register_implementation "ns::abs" Undefined
    (CppFunction_of_callable (failing "impl"))
    (register_schema "ns::neg" "neg(a)"
       (register_implementation "ns::div" CPU
          (CppFunction_of_callable (failing "div/cpu"))
          (register_implementation "ns::mul" CPU
             (CppFunction_of_callable (returning "mul/cpu" (IInt 6)))
             (register_implementation "ns::mul" CUDA
                (CppFunction_of_callable (failing "impl"))
                (register_implementation "ns::add" CPU (CppFunction_of_function add)
                   (register_schema "ns::add" "add(a, b)" no_operators)))))).

Definition no_classes : ClassRegistry := {| classes_ := ∅ |}.

Definition Counter_default : tuple [] → M (list string) positive :=
  λ _ log, (Returns 1%positive, log ++ ["Counter()"]).

Definition Counter_of_int64 : tuple [t_int64] → M (list string) positive :=
  λ '(z, _) log, (Returns (Z.to_pos z), log ++ ["Counter(int64)"]).

Definition Counter_value : member_function t_object :=
  Build_member_function t_object [] (Some t_int64)
    (λ (this : positive) _ log, (Returns (Z.pos this), log ++ ["Counter::value"])).

(** The class "ns::Counter": a default constructor, a constructor from an
    integer, a method "describe" declared with a lambda and a method
    "value" declared with a pointer to member function. *)
Definition classes : ClassRegistry :=
  let '(builder, registry) := class_new t_object "ns" "Counter" no_classes in
  let registry := result_or (def_init [] Counter_default builder registry) registry in
  let registry :=
    result_or (def_init [t_int64] Counter_of_int64 builder registry) registry in
  let registry :=
    result_or (def "describe"
                 (generic_callable (returning "describe" (IString "counter")))
                 builder registry) registry in
  let registry :=
    result_or (def "value" (member_function_pointer Counter_value) builder registry)
      registry in
  registry.
(** Registrations made on "ns::Counter" once the class is registered. *)
Definition Counter_registrations : list registration :=
  [add_constructor "ns::Counter"
     (CppFunction_of_callable (constructor_func [] Counter_default));
   add_method "ns::Counter" "value" (CppFunction_of_callable (method_func Counter_value));
   add_static_method "ns::Counter" "zero"
     (CppFunction_of_callable (returning "zero" (IInt 0)))].
End DemoRegistry.

(** ** Vocabulary of the further properties *)

(** The value that [add_arg] stores for an argument. *)
Definition stored (arg : cpp_arg) : IValue :=
  match arg with
  | arg_c_str s => IString s
  | arg_bool b => IBool b
  | arg_integer z => IInt z
  | arg_floating d => IDouble d
  | arg_std_string s => IString s
  | arg_IValue v => v
  | arg_object h => IObject h
  end.

Section further_vocabulary.
Context `{Host}.

(** The [CppFunction] objects that the constructors of the class make. *)
Inductive constructed : CppFunction → Prop :=
  | constructed_default : constructed CppFunction_default
  | constructed_of_std_function func : constructed (CppFunction_of_std_function func)
  | constructed_of_function f : constructed (CppFunction_of_function f)
  | constructed_of_callable f : constructed (CppFunction_of_callable f).

(** One link of a chain [class_<C>(...).def(...).def_static(...)...]. *)
Inductive declaration (CurClass : Ty) :=
  | declare_init (Types : list Ty) (make_intrusive : tuple Types → M World positive)
  | declare_method (name : string) (f : method_callable CurClass)
  | declare_static (name : string) (f : static_callable).
Arguments declare_init {CurClass} Types make_intrusive.
Arguments declare_method {CurClass} name f.
Arguments declare_static {CurClass} name f.

Definition declare {CurClass : Ty} (d : declaration CurClass) (self : class_ CurClass)
    (registry : ClassRegistry) : outcome ClassRegistry :=
  match d with
  | declare_init Types make_intrusive => def_init Types make_intrusive self registry
  | declare_method name f => def name f self registry
  | declare_static name f => def_static name f self registry
  end.

(** The chain, link after link; a link that throws ends it. *)
Fixpoint declare_all {CurClass : Ty} (ds : list (declaration CurClass))
    (self : class_ CurClass) (registry : ClassRegistry) : outcome ClassRegistry :=
  match ds with
  | [] => Returns registry
  | d :: ds' =>
      match declare d self registry with
      | Returns registry' => declare_all ds' self registry'
      | Throws e => Throws e
      end
  end.

(** The constructor adapter a link registers, if it is a [def(init<...>())]. *)
Definition declared_constructor {CurClass : Ty} (d : declaration CurClass)
  : option CppFunction :=
  match d with
  | declare_init Types make_intrusive =>
      Some (CppFunction_of_callable (constructor_func Types make_intrusive))
  | _ => None
  end.

(** The number of parameters of the constructor a link declares. *)
Definition declared_arity {CurClass : Ty} (d : declaration CurClass) : option nat :=
  match d with
  | declare_init Types _ => Some (length Types)
  | _ => None
  end.

(** Every operator registration is stored under its own qualified name. *)
Definition operators_consistent (self : OperatorRegistry) : Prop :=
  ∀ qn op, operators_ self !! qn = Some op → op_qualified_name op = qn.

(** Every class registration is stored under its own qualified name, the
    namespace and the class name joined by "::". *)
Definition classes_consistent (self : ClassRegistry) : Prop :=
  ∀ qn reg, classes_ self !! qn = Some reg →
    qualified_name reg = qn ∧ qn = namespace_name reg +:+ "::" +:+ class_name reg.
End further_vocabulary.

Arguments declare_init {_ CurClass} Types make_intrusive.
Arguments declare_method {_ CurClass} name f.
Arguments declare_static {_ CurClass} name f.

(** More objects on the demo host. *)
Module DemoLibrary.
Import Demo.
#[local] Existing Instance DemoRegistry.H.

(** A lambda that reads an argument the caller did not pass. *)
Definition reads_sixth_argument : FunctionArgs → M (list string) IValue :=
  λ args, x <- get (H := DemoRegistry.H) t_int64 5 args ;; ret (IInt x).

(** [void touch(int64_t)] *)
Definition touch : function :=
  Build_function [t_int64] None (λ _ log, (Returns tt, log ++ ["touch"])).

(** [int64_t Counter::plus(int64_t)] *)
Definition Counter_plus : member_function t_object :=
  Build_member_function t_object [t_int64] (Some t_int64)
    (λ (this : positive) '(n, _) log, (Returns (Z.pos this + n)%Z, log ++ ["Counter::plus"])).

(** The chain that declares "ns::Counter". *)
Definition Counter_declarations : list (declaration t_object) :=
  [declare_init [] DemoRegistry.Counter_default;
   declare_init [t_int64] DemoRegistry.Counter_of_int64;
   declare_method "describe"
     (generic_callable (returning "describe" (IString "counter")));
   declare_method "value" (member_function_pointer DemoRegistry.Counter_value)].

(** The class "ns::Fragile": a constructor that throws an [int], then one
    that returns. *)
Definition fragile_classes : ClassRegistry :=
  foldl register (register_class "ns" "Fragile" DemoRegistry.no_classes)
    [add_constructor "ns::Fragile" (CppFunction_of_callable (throwing_int "first"));
     add_constructor "ns::Fragile"
       (CppFunction_of_callable (returning "second" (IObject 2)))].


Definition ops : Library := TORCH_LIBRARY "ns" "ops.cc" 10.

Definition ops_cuda : Library := TORCH_LIBRARY_IMPL "ns" CUDA "ops_cuda.cc" 20.
End DemoLibrary.

(** ** Basic facts on the monad *)

Lemma bind_ret_r {W A} (m : M W A) (w : W) : (x <- m ;; ret x) w = m w.
Proof. unfold bind, ret. destruct (m w) as [[a|[e|?]] w']; reflexivity. Qed.

Lemma try_catch_rethrow {W A} (m : M W A) (w : W) :
  try_catch m (λ e, throw e) w = m w.
Proof. unfold try_catch, throw. destruct (m w) as [[a|[e|?]] w']; reflexivity. Qed.

Lemma try_catch_with_context {W A} (m : M W A) (context : string) (w : W) :
  try_catch (x <- m ;; ret x)
    (λ e, throw (Exception runtime_error (context +:+ what e))) w
  = with_context context (m w).
Proof.
  unfold try_catch, bind, ret, throw, with_context.
  destruct (m w) as [[a|[e|?]] w']; reflexivity.
Qed.

(** ** FunctionResult *)

(** C6. A [FunctionResult] has no value exactly when it was constructed
    empty or from a none [IValue]: the default constructor and
    [void_result()] give a result without value, the constructor from an
    [IValue] gives one without value exactly for the none value, the
    constructor from a typed value exactly when the [IValue] made of it is
    none, and an arbitrary result has no value exactly when it is the empty
    one or one built from a none value.  On a result without value
    [get<T>()] fails, for every [T], with "No return value (void function)"
    before any conversion; on a result with a value whose conversion to [T]
    does not succeed it fails with "Cannot convert result from <dynamic
    type> to <T>".  The two failures are never the same exception. *)
Theorem FunctionResult_has_value_void `{Host} :
  has_value FunctionResult_default = false ∧
  has_value void_result = false ∧
  (∀ v : IValue, is_none v = true ↔ v = INone) ∧
  (∀ v : IValue, has_value (FunctionResult_of_IValue v) = false ↔ v = INone) ∧
  (∀ (T : Ty) (x : denote T),
     has_value (FunctionResult_of T x) = false ↔ box T x = INone) ∧
  (∀ r : FunctionResult,
     has_value r = false ↔
     r = FunctionResult_default ∨
     ∃ v, is_none v = true ∧ r = FunctionResult_of_IValue v) ∧
  (∀ (T : Ty) (r : FunctionResult) (w : World),
     has_value r = false →
     FunctionResult_get T r w
     = (Throws (Exception runtime_error "No return value (void function)"), w)) ∧
  (∀ (T : Ty) (r : FunctionResult) (w w1 : World),
     has_value r = true →
     try_convert_to T (value_ r) w = (Returns None, w1) →
     FunctionResult_get T r w
     = (Throws (Exception runtime_error
                  ("Cannot convert result from " +:+ type_string (value_ r) +:+
                   " to " +:+ typeid_name T)), w1)) ∧
  (∀ (T T' : Ty) (r r' : FunctionResult) (w w1 w' w1' : World) (t t' : thrown),
     has_value r = false →
     FunctionResult_get T r w = (Throws t, w1) →
     has_value r' = true →
     try_convert_to T' (value_ r') w' = (Returns None, w1') →
     FunctionResult_get T' r' w' = (Throws t', w1') →
     t ≠ t').
Proof.
  assert (∀ (T : Ty) (r : FunctionResult) (w : World),
            has_value r = false →
            FunctionResult_get T r w
            = (Throws (Exception runtime_error "No return value (void function)"), w))
    as Hvoid.
  { intros T [v] w Hempty. unfold has_value in Hempty. simpl in Hempty.
    apply negb_false_iff in Hempty.
    unfold FunctionResult_get. simpl. by rewrite Hempty. }
  assert (∀ (T : Ty) (r : FunctionResult) (w w1 : World),
            has_value r = true →
            try_convert_to T (value_ r) w = (Returns None, w1) →
            FunctionResult_get T r w
            = (Throws (Exception runtime_error
                         ("Cannot convert result from " +:+ type_string (value_ r) +:+
                          " to " +:+ typeid_name T)), w1)) as Hconversion.
  { intros T [v] w w1 Hvalue Hconv. unfold has_value in Hvalue. simpl in *.
    apply negb_true_iff in Hvalue.
    unfold FunctionResult_get. simpl. rewrite Hvalue. unfold bind. by rewrite Hconv. }
  assert (∀ v : IValue, is_none v = true ↔ v = INone) as Hnone.
  { intros v. by destruct v. }
  split; [reflexivity|]. split; [reflexivity|]. split; [exact Hnone|].
  split; [|split; [|split; [|split; [exact Hvoid|split; [exact Hconversion|]]]]].
  - intros v. unfold has_value. simpl. rewrite negb_false_iff. apply Hnone.
  - intros T x. unfold has_value. simpl. rewrite negb_false_iff. apply Hnone.
  - intros [v]. unfold has_value. simpl. split.
    + intros Hempty. apply negb_false_iff in Hempty. right. exists v. by split.
    + intros [Heq|(v' & Hempty & Heq)].
      * by inversion Heq.
      * inversion Heq; subst. by rewrite Hempty.
  - intros T T' r r' w w1 w' w1' t t' Hempty Hget Hvalue Hconv Hget' Heq.
    rewrite (Hvoid T r w Hempty) in Hget.
    rewrite (Hconversion T' r' w' w1' Hvalue Hconv) in Hget'.
    inversion Hget; subst; inversion Hget'; subst; try discriminate.
Qed.

Lemma FunctionResult_has_value_void_witness :
  has_value void_result = false ∧
  has_value (FunctionResult_of_IValue (IInt 5)) = true ∧
  FunctionResult_get (H := Demo.host LeftToRight) Demo.t_int64 void_result []
  = (Throws (Exception runtime_error "No return value (void function)"), []) ∧
  FunctionResult_get (H := Demo.host LeftToRight) Demo.t_int64
    (FunctionResult_of_IValue (IString "five")) []
  = (Throws (Exception runtime_error "Cannot convert result from String to l"),
     ["convert String to l"]).
Proof.
  pose proof (FunctionResult_has_value_void (H := Demo.host LeftToRight))
    as (_ & Hvoid & _ & Hvalue & _ & _ & Hget & Hconversion & _).
  split; [exact Hvoid|]. split; [|split].
  - destruct (has_value (FunctionResult_of_IValue (IInt 5))) eqn:Hfive; [done|].
    apply Hvalue in Hfive. discriminate Hfive.
  - apply (Hget Demo.t_int64 void_result []). reflexivity.
  - apply (Hconversion Demo.t_int64 (FunctionResult_of_IValue (IString "five")) []
             ["convert String to l"]); reflexivity.
Defined.

(** ** FunctionArgs: indexed reads *)

(** C7, as stated, fails on [operator[]]: on the empty argument list the
    subscript at index 0 is outside [0, size) and raises nothing. *)
Lemma subscript_out_of_range_raises_nothing :
  (size FunctionArgs_default ≤ 0)%nat ∧
  ¬ ∃ e, subscript FunctionArgs_default 0 = Raises e.
Proof.
  split; [reflexivity|]. intros [e He]. discriminate He.
Qed.

(** C7, amended. For an index outside [0, size): [get<T>] fails with
    [std::out_of_range] before any conversion is attempted (the state is
    untouched), [get_value] fails with [std::out_of_range], and
    [operator[]], which has no bounds check, raises nothing: the read is
    undefined. *)
Theorem indexed_reads_out_of_range `{Host} (args : FunctionArgs) (index : nat) :
  (size args ≤ index)%nat →
  (∀ (T : Ty) (w : World),
     get T index args w
     = (Throws (Exception out_of_range "Argument index out of range"), w)) ∧
  get_value args index = Throws (Exception out_of_range "Argument index out of range") ∧
  subscript args index = UndefinedBehaviour.
Proof.
  unfold size. intros Hout. repeat split.
  - intros T w. unfold get. by rewrite bool_decide_eq_true_2.
  - unfold get_value. by rewrite bool_decide_eq_true_2.
  - unfold subscript. by rewrite lookup_ge_None_2.
Qed.

Lemma indexed_reads_out_of_range_witness :
  get (H := Demo.host LeftToRight) Demo.t_int64 2 (FunctionArgs_of [arg_integer 7; arg_bool true]) []
  = (Throws (Exception out_of_range "Argument index out of range"), []).
Proof.
  apply (indexed_reads_out_of_range (H := Demo.host LeftToRight)
           (FunctionArgs_of [arg_integer 7; arg_bool true]) 2).
  vm_compute. lia.
Defined.

(** Inside [0, size) the three reads see the same element. *)
Lemma indexed_reads_in_range `{Host} (args : FunctionArgs) (index : nat) (v : IValue) :
  args_ args !! index = Some v →
  get_value args index = Returns v ∧ subscript args index = Yields v.
Proof.
  intros Hv. pose proof (lookup_lt_Some _ _ _ Hv) as Hlt. split.
  - unfold get_value. rewrite bool_decide_eq_false_2 by lia.
    f_equal. by apply list_lookup_total_correct.
  - unfold subscript. by rewrite Hv.
Qed.

(** ** ClassRegistry: register_class *)

Section register_class.
Context `{Host}.

Lemma register_class_lookup (ns name : string) (self : ClassRegistry) :
  classes_ (register_class ns name self) !! (ns +:+ "::" +:+ name)
  = Some (ClassRegistration_new ns name).
Proof. unfold register_class. simpl. apply lookup_insert_eq. Qed.

Lemma register_class_lookup_ne (ns name qn : string) (self : ClassRegistry) :
  qn ≠ ns +:+ "::" +:+ name →
  classes_ (register_class ns name self) !! qn = classes_ self !! qn.
Proof. intros Hne. unfold register_class. simpl. by apply lookup_insert_ne. Qed.
End register_class.

(** C8. Whatever was registered on a class after [register_class]
    (constructors, instance methods, static methods), calling
    [register_class] again with the same namespace and class name leaves a
    registration under the qualified name whose constructor list and two
    method maps are empty; registering twice in a row is registering once. *)
Theorem register_class_replaces `{Host} (ns name : string) (self : ClassRegistry)
    (registrations : list registration) :
  let registered := register_class ns name self in
  let populated := foldl register registered registrations in
  let again := register_class ns name populated in
  (∃ reg, classes_ again !! (ns +:+ "::" +:+ name) = Some reg ∧
          namespace_name reg = ns ∧ class_name reg = name ∧
          qualified_name reg = ns +:+ "::" +:+ name ∧
          constructors reg = [] ∧ methods reg = ∅ ∧ static_methods reg = ∅) ∧
  (∀ qn, qn ≠ ns +:+ "::" +:+ name → classes_ again !! qn = classes_ populated !! qn) ∧
  register_class ns name registered = registered.
Proof.
  intros registered populated again. repeat split.
  - exists (ClassRegistration_new ns name). split; [apply register_class_lookup|done].
  - intros qn Hne. by apply register_class_lookup_ne.
  - unfold registered, register_class. simpl. f_equal. apply insert_insert_eq.
Qed.

Lemma register_class_replaces_witness :
  let populated :=
    foldl (register (H := DemoRegistry.H))
      (register_class "ns" "Counter" DemoRegistry.no_classes)
      DemoRegistry.Counter_registrations in
  (∃ reg, classes_ populated !! "ns::Counter" = Some reg ∧
          length (constructors reg) = 1 ∧
          has_method "ns::Counter" "value" populated = true ∧
          has_static_method "ns::Counter" "zero" populated = true) ∧
  (∃ reg, classes_ (register_class "ns" "Counter" populated) !! "ns::Counter" = Some reg ∧
          constructors reg = [] ∧ methods reg = ∅ ∧ static_methods reg = ∅).
Proof.
  intros populated. split.
  - eexists. split; [reflexivity|]. split; [reflexivity|]. split; reflexivity.
  - destruct (register_class_replaces (H := DemoRegistry.H) "ns" "Counter"
                DemoRegistry.no_classes DemoRegistry.Counter_registrations)
      as ((reg & Hreg & _ & _ & _ & Hctors & Hmethods & Hstatic) & _).
    exists reg. split; [exact Hreg|]. split; [exact Hctors|]. split; [exact Hmethods|].
    exact Hstatic.
Defined.

(** ** OperatorRegistry: dispatch *)

Section dispatch.
Context `{Host}.
Implicit Types (self : OperatorRegistry) (op : OperatorRegistration).
Implicit Types (key : DispatchKey) (args : list cpp_arg) (w : World).

Lemma call_bound (impl : CppFunction) (func : CallableFunction) args w :
  func_ impl = Some func → call impl args w = func (FunctionArgs_of args) w.
Proof. intros Hf. unfold call. by rewrite Hf. Qed.

Lemma call_unbound (impl : CppFunction) args w :
  func_ impl = None →
  call impl args w = (Throws (Exception runtime_error "CppFunction is not initialized"), w).
Proof. intros Hf. unfold call. by rewrite Hf. Qed.

Lemma execute_with_args_not_found qn key args self w :
  find_operator qn self = None →
  execute_operator_with_args qn key args self w
  = (Throws (Exception runtime_error ("Operator " +:+ qn +:+ " not found!")), w).
Proof. intros Hop. unfold execute_operator_with_args. by rewrite Hop. Qed.

Lemma execute_with_args_exact qn key args self w op impl :
  find_operator qn self = Some op →
  implementations op !! key = Some impl →
  execute_operator_with_args qn key args self w
  = with_context "Error executing operator: " (call impl args w).
Proof.
  intros Hop Himpl. unfold execute_operator_with_args. rewrite Hop, Himpl.
  apply try_catch_with_context.
Qed.

Lemma execute_with_args_fallback qn key args self w op cpu_impl :
  find_operator qn self = Some op →
  implementations op !! key = None →
  key ≠ CPU →
  implementations op !! CPU = Some cpu_impl →
  execute_operator_with_args qn key args self w
  = with_context "Error executing operator (CPU fallback): " (call cpu_impl args w).
Proof.
  intros Hop Hkey Hne Hcpu. unfold execute_operator_with_args.
  rewrite Hop, Hkey, bool_decide_eq_true_2, Hcpu by done.
  apply try_catch_with_context.
Qed.

Lemma execute_with_args_no_implementation qn key args self w op :
  find_operator qn self = Some op →
  implementations op !! key = None →
  implementations op !! CPU = None →
  execute_operator_with_args qn key args self w
  = (Throws (Exception runtime_error
               ("No implementation found for " +:+ qn +:+ " with " +:+
                dispatch_key_to_string key)), w).
Proof.
  intros Hop Hkey Hcpu. unfold execute_operator_with_args.
  rewrite Hop, Hkey, Hcpu. by case_bool_decide.
Qed.

Lemma execute_exact qn key self w op impl :
  find_operator qn self = Some op →
  implementations op !! key = Some impl →
  execute_operator qn key self w = probe (call impl [] w).
Proof.
  intros Hop Himpl. unfold execute_operator. rewrite Hop, Himpl.
  unfold try_catch, bind, ret, probe.
  by destruct (call impl [] w) as [[r|[e|?]] w'].
Qed.

Lemma find_operator_register_implementation qn key func self :
  ∃ op, find_operator qn (register_implementation qn key func self) = Some op ∧
        implementations op !! key = Some func ∧
        ∀ k, k ≠ key →
             implementations op !! k
             = (find_operator qn self ≫= λ old, implementations old !! k).
Proof.
  unfold register_implementation, get_or_create_operator, find_operator.
  destruct (operators_ self !! qn) as [old|] eqn:Hold; simpl.
  - eexists. rewrite lookup_insert_eq. split; [done|]. simpl.
    split; [apply lookup_insert_eq|]. intros k Hk. by rewrite lookup_insert_ne.
  - eexists. rewrite lookup_insert_eq. split; [done|]. simpl.
    split; [apply lookup_insert_eq|]. intros k Hk. by rewrite lookup_insert_ne.
Qed.
End dispatch.

(** C1. [execute_operator_with_args(name, K, args...)]: when the operator
    has an implementation under [K] the call is the invocation of that
    implementation on [args]; when it has none under [K], [K] is not CPU
    and there is one under CPU, the call is the invocation of the CPU
    implementation on the same [args]; when there is none under [K] and
    none under CPU it fails with "No implementation found for <name> with
    <K>" and nothing has run; when the name has no registration it fails
    with "Operator <name> not found!" and nothing has run.  An invocation
    passes the result and the state on; a failure inside it comes back with
    its message behind a fixed context. *)
Theorem execute_operator_with_args_dispatch `{Host} (qualified_name : string)
    (key : DispatchKey) (args : list cpp_arg) (self : OperatorRegistry) (w : World) :
  (∀ op, find_operator qualified_name self = Some op →
     (∀ impl, implementations op !! key = Some impl →
        execute_operator_with_args qualified_name key args self w
        = with_context "Error executing operator: " (call impl args w)) ∧
     (∀ cpu_impl,
        implementations op !! key = None → key ≠ CPU →
        implementations op !! CPU = Some cpu_impl →
        execute_operator_with_args qualified_name key args self w
        = with_context "Error executing operator (CPU fallback): "
            (call cpu_impl args w)) ∧
     (implementations op !! key = None → implementations op !! CPU = None →
        execute_operator_with_args qualified_name key args self w
        = (Throws (Exception runtime_error
                     ("No implementation found for " +:+ qualified_name +:+
                      " with " +:+ dispatch_key_to_string key)), w))) ∧
  (find_operator qualified_name self = None →
     execute_operator_with_args qualified_name key args self w
     = (Throws (Exception runtime_error
                  ("Operator " +:+ qualified_name +:+ " not found!")), w)).
Proof.
  split.
  - intros op Hop. repeat split.
    + intros impl Himpl. by eapply execute_with_args_exact.
    + intros cpu_impl Hkey Hne Hcpu. by eapply execute_with_args_fallback.
    + intros Hkey Hcpu. by eapply execute_with_args_no_implementation.
  - apply execute_with_args_not_found.
Qed.

Lemma execute_operator_with_args_dispatch_witness :
  let run key name args :=
    execute_operator_with_args (H := DemoRegistry.H) name key args DemoRegistry.operators [] in
  run CPU "ns::add" [arg_integer 2; arg_integer 3]
    = (Returns (FunctionResult_of_IValue (IInt 5)),
       ["convert Int to l"; "convert Int to l"; "add"]) ∧
  run CUDA "ns::add" [arg_integer 2; arg_integer 3]
    = (Returns (FunctionResult_of_IValue (IInt 5)),
       ["convert Int to l"; "convert Int to l"; "add"]) ∧
  run CPU "ns::add" [arg_integer 2]
    = (Throws (Exception runtime_error
                 "Error executing operator: Function call failed: Function expects 2 arguments, got 1"),
       []) ∧
  run CUDA "ns::neg" []
    = (Throws (Exception runtime_error "No implementation found for ns::neg with CUDA"), []) ∧
  run CPU "ns::missing" []
    = (Throws (Exception runtime_error "Operator ns::missing not found!"), []).
Proof.
  intros run. unfold run.
  split; [|split; [|split; [|split]]].
  - destruct (execute_operator_with_args_dispatch (H := DemoRegistry.H) "ns::add" CPU
                [arg_integer 2; arg_integer 3] DemoRegistry.operators []) as [Hreg _].
    destruct (Hreg _ eq_refl) as (Hexact & _ & _).
    rewrite (Hexact _ eq_refl). reflexivity.
  - destruct (execute_operator_with_args_dispatch (H := DemoRegistry.H) "ns::add" CUDA
                [arg_integer 2; arg_integer 3] DemoRegistry.operators []) as [Hreg _].
    destruct (Hreg _ eq_refl) as (_ & Hfallback & _).
    rewrite (Hfallback _ eq_refl ltac:(done) eq_refl). reflexivity.
  - reflexivity.
  - destruct (execute_operator_with_args_dispatch (H := DemoRegistry.H) "ns::neg" CUDA
                [] DemoRegistry.operators []) as [Hreg _].
    destruct (Hreg _ eq_refl) as (_ & _ & Hnone).
    apply Hnone; reflexivity.
  - destruct (execute_operator_with_args_dispatch (H := DemoRegistry.H) "ns::missing" CPU
                [] DemoRegistry.operators []) as [_ Hmissing].
    apply Hmissing. reflexivity.
Defined.

(** C9. When an implementation is registered under the requested key and
    its invocation fails, [execute_operator] answers [false] and
    [execute_operator_with_args] fails with the rewrapped failure, in the
    state the failed invocation left: the CPU implementation has not run.
    When what the implementation throws is not a [std::exception], both
    calls end with that thrown value, again in the state the invocation
    left and without the CPU implementation.  More, as long as the
    requested key has an entry the CPU entry plays no part: registering any
    other CPU implementation changes neither call. *)
Theorem failing_implementation_is_not_retried_on_CPU `{Host} (qualified_name : string)
    (key : DispatchKey) (args : list cpp_arg) (self : OperatorRegistry) (w : World)
    (op : OperatorRegistration) (impl : CppFunction) :
  find_operator qualified_name self = Some op →
  implementations op !! key = Some impl →
  (∀ (e : exception) w', call impl [] w = (Throws e, w') →
           execute_operator qualified_name key self w = (Returns false, w')) ∧
  (∀ (e : exception) w', call impl args w = (Throws e, w') →
           execute_operator_with_args qualified_name key args self w
           = (Throws (Exception runtime_error
                        ("Error executing operator: " +:+ what e)), w')) ∧
  (key ≠ CPU →
   ∀ cpu_impl,
     let other := register_implementation qualified_name CPU cpu_impl self in
     execute_operator qualified_name key other w
     = execute_operator qualified_name key self w ∧
     execute_operator_with_args qualified_name key args other w
     = execute_operator_with_args qualified_name key args self w) ∧
  (∀ v w', call impl [] w = (Throws (NonStd v), w') →
           execute_operator qualified_name key self w = (Throws (NonStd v), w')) ∧
  (∀ v w', call impl args w = (Throws (NonStd v), w') →
           execute_operator_with_args qualified_name key args self w
           = (Throws (NonStd v), w')).
Proof.
  intros Hop Himpl. split; [|split; [|split; [|split]]].
  - intros e w' Hfail. rewrite (execute_exact _ _ _ _ _ _ Hop Himpl). by rewrite Hfail.
  - intros e w' Hfail. rewrite (execute_with_args_exact _ _ _ _ _ _ _ Hop Himpl).
    by rewrite Hfail.
  - intros Hne cpu_impl other.
    destruct (find_operator_register_implementation qualified_name CPU cpu_impl self)
      as (op' & Hop' & _ & Hrest).
    assert (implementations op' !! key = Some impl) as Himpl'.
    { rewrite Hrest by done. by rewrite Hop. }
    split.
    + unfold other. rewrite (execute_exact _ _ _ _ _ _ Hop' Himpl').
      by rewrite (execute_exact _ _ _ _ _ _ Hop Himpl).
    + unfold other. rewrite (execute_with_args_exact _ _ _ _ _ _ _ Hop' Himpl').
      by rewrite (execute_with_args_exact _ _ _ _ _ _ _ Hop Himpl).
  - intros v w' Hfail. rewrite (execute_exact _ _ _ _ _ _ Hop Himpl). by rewrite Hfail.
  - intros v w' Hfail. rewrite (execute_with_args_exact _ _ _ _ _ _ _ Hop Himpl).
    by rewrite Hfail.
Qed.

Lemma failing_implementation_is_not_retried_on_CPU_witness :
  execute_operator (H := DemoRegistry.H) "ns::mul" CUDA DemoRegistry.operators []
  = (Returns false, ["impl"]) ∧
  execute_operator_with_args (H := DemoRegistry.H) "ns::mul" CUDA [] DemoRegistry.operators []
  = (Throws (Exception runtime_error
               "Error executing operator: Lambda execution failed: boom"), ["impl"]).
Proof.
  destruct (failing_implementation_is_not_retried_on_CPU (H := DemoRegistry.H)
              "ns::mul" CUDA [] DemoRegistry.operators [] _ _ eq_refl eq_refl)
    as (Hprobe & Htyped & _).
  split.
  - apply (Hprobe (Exception runtime_error "Lambda execution failed: boom")).
    reflexivity.
  - apply (Htyped (Exception runtime_error "Lambda execution failed: boom")).
    reflexivity.
Defined.







(** ** ClassRegistry: constructor overload resolution *)

Section constructors.
Context `{Host}.
Implicit Types (cs before after : list CppFunction) (c : CppFunction).
Implicit Types (args : FunctionArgs) (w : World).

Lemma try_constructors_cons qn c cs args w :
  try_constructors qn (c :: cs) args w
  = match call_with_args c args w with
    | (Returns r, w') => (Returns r, w')
    | (Throws (Std _), w') => try_constructors qn cs args w'
    | (Throws (NonStd v), w') => (Throws (NonStd v), w')
    end.
Proof.
  simpl. unfold try_catch. rewrite bind_ret_r.
  by destruct (call_with_args c args w) as [[r|[e|?]] w'].
Qed.






Lemma call_constructor_with_args_registered qn args (self : ClassRegistry) reg w :
  classes_ self !! qn = Some reg →
  constructors reg ≠ [] →
  call_constructor_with_args qn args self w
  = try_constructors qn (constructors reg) args w.
Proof.
  intros Hreg Hne. unfold call_constructor_with_args. rewrite Hreg.
  by destruct (constructors reg).
Qed.
End constructors.

(** C2, as stated, fails: the first constructor of "ns::Fragile" throws an
    [int], the second would return on the same arguments; the call ends
    with the [int], the second constructor is never tried, and the failure
    is not "No suitable constructor found". *)
Lemma constructor_throwing_int_ends_the_call :
  (∃ reg c1 c2,
     classes_ DemoLibrary.fragile_classes !! "ns::Fragile" = Some reg ∧
     constructors reg = [c1; c2] ∧
     call_with_args (H := DemoRegistry.H) c1 FunctionArgs_default []
     = (Throws (NonStd (thrown_int 42)), ["first"]) ∧
     ∀ w, call_with_args (H := DemoRegistry.H) c2 FunctionArgs_default w
          = (Returns (FunctionResult_of_IValue (IObject 2)), w ++ ["second"])) ∧
  call_constructor_with_args (H := DemoRegistry.H) "ns::Fragile" FunctionArgs_default
    DemoLibrary.fragile_classes []
  = (Throws (NonStd (thrown_int 42)), ["first"]) ∧
  ¬ (∃ r w',
       call_constructor_with_args (H := DemoRegistry.H) "ns::Fragile"
         FunctionArgs_default DemoLibrary.fragile_classes [] = (Returns r, w')) ∧
  call_constructor_with_args (H := DemoRegistry.H) "ns::Fragile" FunctionArgs_default
    DemoLibrary.fragile_classes []
  ≠ (Throws (Exception runtime_error "No suitable constructor found for ns::Fragile"),
     ["first"]).
Proof.
  split; [|split; [|split]].
  - eexists _, _, _. split; [reflexivity|]. split; [reflexivity|].
    split; [reflexivity|]. intros w. reflexivity.
  - reflexivity.
  - intros (r & w' & Hrun). discriminate Hrun.
  - intros Hrun. discriminate Hrun.
Qed.



(** ** The class builder: instance methods *)

Section def.
Context `{Host}.

Lemma call_method_with_args_unknown_method qn name args (self : ClassRegistry) w :
  has_class qn self = true →
  has_method qn name self = false →
  call_method_with_args qn name args self w
  = (Throws (Exception runtime_error
               ("Method " +:+ name +:+ " not found in " +:+ qn +:+ "!")), w).
Proof.
  unfold has_class, has_method, call_method_with_args.
  intros Hclass Hmethod. apply bool_decide_eq_true in Hclass as [reg Hreg].
  rewrite Hreg in Hmethod |- *.
  apply bool_decide_eq_false in Hmethod.
  destruct (methods reg !! name) as [m|] eqn:Hm; [|done].
  destruct Hmethod. by eexists.
Qed.

Lemma class_new_has_class (CurClass : Ty) ns name (registry : ClassRegistry) :
  has_class (qualified_name_ (class_new CurClass ns name registry).1)
    (class_new CurClass ns name registry).2 = true.
Proof.
  unfold has_class, class_new. cbn [fst snd qualified_name_].
  apply bool_decide_eq_true. rewrite register_class_lookup. by eexists.
Qed.

Lemma class_new_has_no_method (CurClass : Ty) ns name method (registry : ClassRegistry) :
  has_method (qualified_name_ (class_new CurClass ns name registry).1) method
    (class_new CurClass ns name registry).2 = false.
Proof.
  unfold has_method, class_new. cbn [fst snd qualified_name_].
  rewrite register_class_lookup. cbn [methods ClassRegistration_new].
  apply bool_decide_eq_false. rewrite lookup_empty. by intros [? ?].
Qed.

(** The other branch of [def]: a pointer to member function is registered. *)
Lemma def_member_function_pointer_registers {CurClass : Ty} name
    (f : member_function CurClass) (self : class_ CurClass) (registry : ClassRegistry) :
  has_class (qualified_name_ self) registry = true →
  ∃ registry',
    def name (member_function_pointer f) self registry = Returns registry' ∧
    has_method (qualified_name_ self) name registry' = true.
Proof.
  unfold has_class, def, register_method, has_method.
  intros Hclass. apply bool_decide_eq_true in Hclass as [reg Hreg].
  rewrite Hreg. eexists. split; [done|]. simpl.
  rewrite lookup_insert_eq. simpl. apply bool_decide_eq_true.
  rewrite lookup_insert_eq. by eexists.
Qed.
End def.

(** C10. [def(name, f)] with a callable that is not a pointer to member
    function returns normally and leaves the class registry as it was; so
    on a class that has no instance method [name] (as right after the
    builder was created) [call_method_with_args] for [name] then fails with
    "Method <name> not found in <class>!" without running anything. *)
Theorem def_generic_callable_registers_nothing `{Host} (CurClass : Ty)
    (self : class_ CurClass) (name : string) (f : FunctionArgs → M World IValue)
    (registry : ClassRegistry) :
  def name (generic_callable f) self registry = Returns registry ∧
  (has_class (qualified_name_ self) registry = true →
   has_method (qualified_name_ self) name registry = false →
   ∀ args w,
     call_method_with_args (qualified_name_ self) name args
       (result_or (def name (generic_callable f) self registry) registry) w
     = (Throws (Exception runtime_error
                  ("Method " +:+ name +:+ " not found in " +:+
                   qualified_name_ self +:+ "!")), w)) ∧
  (∀ ns class_name args w,
     let created := class_new CurClass ns class_name registry in
     call_method_with_args (qualified_name_ created.1) name args
       (result_or (def name (generic_callable f) created.1 created.2) created.2) w
     = (Throws (Exception runtime_error
                  ("Method " +:+ name +:+ " not found in " +:+
                   qualified_name_ created.1 +:+ "!")), w)).
Proof.
  split; [reflexivity|]. split.
  - intros Hclass Hmethod args w. simpl.
    by apply call_method_with_args_unknown_method.
  - intros ns class_name args w created. simpl result_or.
    apply call_method_with_args_unknown_method.
    + apply class_new_has_class.
    + apply class_new_has_no_method.
Qed.

Lemma def_generic_callable_registers_nothing_witness :
  let builder := (class_new (H := DemoRegistry.H) Demo.t_object "ns" "Counter"
                    DemoRegistry.no_classes).1 in
  has_method "ns::Counter" "describe" DemoRegistry.classes = false ∧
  has_method "ns::Counter" "value" DemoRegistry.classes = true ∧
  call_method_with_args (H := DemoRegistry.H) "ns::Counter" "describe"
    (FunctionArgs_of [arg_object 5]) DemoRegistry.classes []
  = (Throws (Exception runtime_error "Method describe not found in ns::Counter!"), []).
Proof.
  intros builder. split; [reflexivity|]. split; [reflexivity|].
  destruct (def_generic_callable_registers_nothing (H := DemoRegistry.H) Demo.t_object
              builder "describe" (Demo.returning "describe" (IString "counter"))
              DemoRegistry.classes) as (_ & Hcall & _).
  apply (Hcall eq_refl eq_refl (FunctionArgs_of [arg_object 5]) []).
Defined.

(** ** FunctionArgs: typed extraction *)

Section to_tuple.
Context `{Host}.
Implicit Types (args : FunctionArgs) (w : World) (Types : list Ty).

(** Inside the bounds [get<T>] is the conversion of the element: its
    value when it converts, and when it does not a failure naming the
    index, the dynamic type of the element and the requested type. *)
Lemma get_in_range (T : Ty) index args v w :
  args_ args !! index = Some v →
  get T index args w
  = match try_convert_to T v w with
    | (Returns (Some result), w') => (Returns result, w')
    | (Returns None, w') =>
        (Throws (Exception runtime_error
                   ("Cannot convert argument " +:+ to_string index +:+ " from " +:+
                    type_string v +:+ " to " +:+ typeid_name T)), w')
    | (Throws e, w') => (Throws e, w')
    end.
Proof.
  intros Hv. pose proof (lookup_lt_Some _ _ _ Hv) as Hlt.
  unfold get. rewrite bool_decide_eq_false_2 by lia.
  rewrite (list_lookup_total_correct _ _ _ Hv). unfold bind.
  by destruct (try_convert_to T v w) as [[[x|]|e] w'].
Qed.

Lemma converts_total args todo w :
  ∃ done failure w', converts args todo w done failure w'.
Proof.
  revert w. induction todo as [|[i T] todo IH]; intros w.
  - eexists _, _, _. constructor.
  - destruct (get T i args w) as [[x|e] w1] eqn:Hget.
    + destruct (IH w1) as (done & failure & w' & Hrest).
      eexists _, _, _. by eapply converts_ok.
    + eexists _, _, _. by eapply converts_fail.
Qed.

Lemma converts_app_inv args todo1 todo2 w done failure w' :
  converts args (todo1 ++ todo2) w done failure w' →
  (∃ e, failure = Some e ∧ converts args todo1 w done (Some e) w') ∨
  (∃ done1 done2 w1,
     done = done1 ++ done2 ∧ converts args todo1 w done1 None w1 ∧
     converts args todo2 w1 done2 failure w').
Proof.
  revert w done. induction todo1 as [|[i T] todo1 IH]; intros w done Hrun.
  - right. exists [], done, w. split; [done|]. split; [constructor|done].
  - simpl in Hrun. inversion Hrun as [|? ? ? ? x w1 done' ? ? Hget Hrest|? ? ? ? e w1 Hget];
      subst.
    + destruct (IH _ _ Hrest) as [(e & -> & Hfail)|(d1 & d2 & wm & -> & H1 & H2)].
      * left. exists e. split; [done|]. by eapply converts_ok.
      * right. exists ((i, existT T x) :: d1), d2, wm.
        split; [done|]. split; [|done]. by eapply converts_ok.
    + left. exists e. split; [done|]. by eapply converts_fail.
Qed.

Lemma to_tuple_impl_cons (T : Ty) Types I args :
  to_tuple_impl (T :: Types) I args
  = match argument_order with
    | LeftToRight =>
        x <- get T I args ;;
        rest <- to_tuple_impl Types (S I) args ;;
        ret (x, rest)
    | RightToLeft =>
        rest <- to_tuple_impl Types (S I) args ;;
        x <- get T I args ;;
        ret (x, rest)
    end.
Proof. reflexivity. Qed.

(** [to_tuple_impl] is the run of the conversions in evaluation order. *)
Lemma to_tuple_impl_converts Types I args w done failure w' :
  converts args (in_order (positions I Types)) w done failure w' →
  match failure with
  | Some e => to_tuple_impl Types I args w = (Throws e, w')
  | None =>
      ∃ t, to_tuple_impl Types I args w = (Returns t, w') ∧
           done = in_order (tuple_values I Types t)
  end.
Proof.
  unfold in_order. destruct argument_order eqn:Horder.
  - revert I w done. induction Types as [|T Types IH]; intros I w done Hrun.
    + inversion Hrun; subst. by exists tt.
    + rewrite to_tuple_impl_cons, Horder. unfold bind, ret.
      simpl in Hrun.
      inversion Hrun as [|? ? ? ? x w1 done' ? ? Hget Hrest|? ? ? ? e w1 Hget]; subst.
      * rewrite Hget. specialize (IH _ _ _ Hrest). destruct failure as [e|].
        -- by rewrite IH.
        -- destruct IH as (t & -> & ->). by exists (x, t).
      * by rewrite Hget.
  - revert I w done failure w'.
    induction Types as [|T Types IH]; intros I w done failure w' Hrun.
    + inversion Hrun; subst. by exists tt.
    + rewrite to_tuple_impl_cons, Horder. unfold bind, ret.
      simpl in Hrun. apply converts_app_inv in Hrun
        as [(e & -> & Hfail)|(d1 & d2 & wm & -> & Hrest & Hlast)].
      * by rewrite (IH _ _ _ _ _ Hfail).
      * destruct (IH _ _ _ _ _ Hrest) as (t & -> & ->).
        inversion Hlast as [|? ? ? ? x w1 done' ? ? Hget Hnil|? ? ? ? e w1 Hget]; subst.
        -- inversion Hnil; subst. rewrite Hget. by exists (x, t).
        -- by rewrite Hget.
Qed.
End to_tuple.

(** C5. [to_tuple<Types...>()], for any number of requested types, zero
    included.  When the argument count differs from it the call fails with
    "Argument count mismatch: expected <n>, got <size>" in an untouched
    state: no conversion was attempted.  When the counts agree the
    positions are converted one after the other in evaluation order: if one
    of them fails the call fails with the exception of the first that does,
    in the state reached there (the positions after it are not converted,
    no tuple is produced); if none fails the call returns the tuple of the
    converted values. *)
Theorem to_tuple_arity_and_conversion `{Host} (Types : list Ty) (args : FunctionArgs)
    (w : World) :
  (length Types ≠ size args →
   to_tuple Types args w
   = (Throws (Exception runtime_error
                ("Argument count mismatch: expected " +:+ to_string (length Types) +:+
                 ", got " +:+ to_string (size args))), w)) ∧
  (length Types = size args →
   (∃ done failure w', converts args (in_order (positions 0 Types)) w done failure w') ∧
   (∀ done e w',
      converts args (in_order (positions 0 Types)) w done (Some e) w' →
      to_tuple Types args w = (Throws e, w')) ∧
   (∀ done w',
      converts args (in_order (positions 0 Types)) w done None w' →
      ∃ t, to_tuple Types args w = (Returns t, w') ∧
           done = in_order (tuple_values 0 Types t))).
Proof.
  unfold to_tuple, size. split.
  - intros Hne. by rewrite bool_decide_eq_true_2.
  - intros Heq. rewrite bool_decide_eq_false_2 by (by intros ?).
    split; [apply converts_total|]. split.
    + intros done e w' Hrun. by apply to_tuple_impl_converts in Hrun.
    + intros done w' Hrun. by apply to_tuple_impl_converts in Hrun.
Qed.

Lemma to_tuple_arity_and_conversion_witness :
  let strings := FunctionArgs_of [arg_c_str "x"; arg_c_str "y"] in
  to_tuple (H := Demo.host LeftToRight) [Demo.t_int64] strings []
  = (Throws (Exception runtime_error "Argument count mismatch: expected 1, got 2"), []) ∧
  to_tuple (H := Demo.host LeftToRight) [Demo.t_int64; Demo.t_int64] strings []
  = (Throws (Exception runtime_error "Cannot convert argument 0 from String to l"),
     ["convert String to l"]) ∧
  to_tuple (H := Demo.host RightToLeft) [Demo.t_int64; Demo.t_int64] strings []
  = (Throws (Exception runtime_error "Cannot convert argument 1 from String to l"),
     ["convert String to l"]) ∧
  to_tuple (H := Demo.host RightToLeft) [Demo.t_string; Demo.t_string] strings []
  = (Returns ("x", ("y", tt)), ["convert String to Ss"; "convert String to Ss"]).
Proof.
  intros strings. split; [|split; [|split]].
  - destruct (to_tuple_arity_and_conversion (H := Demo.host LeftToRight)
                [Demo.t_int64] strings []) as [Harity _].
    apply Harity. vm_compute. lia.
  - destruct (to_tuple_arity_and_conversion (H := Demo.host LeftToRight)
                [Demo.t_int64; Demo.t_int64] strings []) as [_ Hconv].
    destruct (Hconv eq_refl) as (_ & Hfail & _).
    eapply Hfail. unfold in_order. simpl.
    eapply (converts_fail (H := Demo.host LeftToRight)). reflexivity.
  - destruct (to_tuple_arity_and_conversion (H := Demo.host RightToLeft)
                [Demo.t_int64; Demo.t_int64] strings []) as [_ Hconv].
    destruct (Hconv eq_refl) as (_ & Hfail & _).
    eapply Hfail. unfold in_order. simpl.
    eapply (converts_fail (H := Demo.host RightToLeft)). reflexivity.
  - destruct (to_tuple_arity_and_conversion (H := Demo.host RightToLeft)
                [Demo.t_string; Demo.t_string] strings []) as [_ Hconv].
    destruct (Hconv eq_refl) as (_ & _ & Hall).
    edestruct Hall as (t & Hrun & _).
    + unfold in_order. simpl.
      eapply (converts_ok (H := Demo.host RightToLeft)); [lazy; reflexivity|].
      eapply (converts_ok (H := Demo.host RightToLeft)); [lazy; reflexivity|].
      apply (converts_nil (H := Demo.host RightToLeft)).
    + pose proof Hrun as Hvalue. vm_compute in Hvalue.
      rewrite Hrun. symmetry. exact Hvalue.
Defined.

(** * Further properties *)

(** ** FunctionArgs: construction and reads *)

Lemma add_arg_stores (arg : cpp_arg) (self : FunctionArgs) :
  args_ (add_arg arg self) = args_ self ++ [stored arg].
Proof. by destruct arg. Qed.

Lemma foldl_add_arg (args : list cpp_arg) (self : FunctionArgs) :
  args_ (foldl (λ self arg, add_arg arg self) self args)
  = args_ self ++ (stored <$> args).
Proof.
  revert self. induction args as [|a args IH]; intros self; simpl.
  - by rewrite app_nil_r.
  - rewrite IH, add_arg_stores, <- app_assoc. done.
Qed.

(** X1. The variadic constructor keeps the call-site order: the argument
    list holds, position by position, the value stored for each argument,
    so its size is the number of arguments and a checked read at a position
    gives back the value of the argument passed there. *)
Theorem FunctionArgs_of_keeps_order (args : list cpp_arg) :
  args_ (FunctionArgs_of args) = stored <$> args ∧
  size (FunctionArgs_of args) = length args ∧
  (empty (FunctionArgs_of args) = true ↔ args = []) ∧
  ∀ i arg, args !! i = Some arg →
           get_value (FunctionArgs_of args) i = Returns (stored arg).
Proof.
  assert (args_ (FunctionArgs_of args) = stored <$> args) as Hargs.
  { unfold FunctionArgs_of. by rewrite foldl_add_arg. }
  split; [done|]. split; [|split].
  - unfold size. by rewrite Hargs, length_fmap.
  - unfold empty. rewrite Hargs. by destruct args.
  - intros i arg Hi. unfold get_value. rewrite Hargs.
    pose proof (lookup_lt_Some _ _ _ Hi) as Hlt.
    rewrite bool_decide_eq_false_2 by (rewrite length_fmap; lia).
    f_equal. apply list_lookup_total_correct. by rewrite list_lookup_fmap, Hi.
Qed.

(** X2. The checked read [get_value] and the unchecked [operator[]] see the
    same elements: one returns a value at an index exactly when the other
    yields it, and [get_value] throws exactly at the indexes where
    [operator[]] is undefined. *)
Theorem get_value_agrees_with_subscript (args : FunctionArgs) (index : nat) :
  (∀ v, get_value args index = Returns v ↔ subscript args index = Yields v) ∧
  ((∃ e, get_value args index = Throws e) ↔ subscript args index = UndefinedBehaviour).
Proof.
  unfold get_value, subscript.
  destruct (args_ args !! index) as [x|] eqn:Hx.
  - pose proof (lookup_lt_Some _ _ _ Hx) as Hlt.
    rewrite bool_decide_eq_false_2 by lia.
    rewrite (list_lookup_total_correct _ _ _ Hx). split.
    + intros v. split; intros Hv; inversion Hv; done.
    + split; [intros [e He]; done|done].
  - apply lookup_ge_None in Hx. rewrite bool_decide_eq_true_2 by done. split.
    + intros v. split; intros Hv; done.
    + split; [done|]. intros _. by eexists.
Qed.

(** ** CppFunction: what leaves an adapter *)

Section adapters.
Context `{Host}.
Implicit Types (args : FunctionArgs) (w : World).

Lemma call_with_args_rewraps (f : FunctionArgs → M World IValue) (context : string)
    args w :
  try_catch (result <- f args ;; ret (FunctionResult_of_IValue result))
    (λ e, throw (Exception runtime_error (context +:+ what e))) w
  = adapted context (f args w).
Proof.
  unfold try_catch, bind, ret, throw, adapted.
  by destruct (f args w) as [[v|[e|?]] w'].
Qed.

Lemma call_with_args_of_callable (f : FunctionArgs → M World IValue) args w :
  call_with_args (CppFunction_of_callable f) args w
  = adapted "Lambda execution failed: " (f args w).
Proof. apply call_with_args_rewraps. Qed.

Lemma call_with_args_of_function (f : function) args w :
  call_with_args (CppFunction_of_function f) args w
  = adapted "Function call failed: " (call_function f args w).
Proof. apply (call_with_args_rewraps (invoke_function f)). Qed.

Lemma call_with_args_of_std_function (f : FunctionArgs → M World IValue) args w :
  call_with_args (CppFunction_of_std_function f) args w
  = adapted "Constructor failed: " (f args w).
Proof. apply call_with_args_rewraps. Qed.
End adapters.

(** X3. The three constructors of [CppFunction] wrap a callable alike, each
    with its own context: when the callable returns, the call of the
    adapter returns its value as a [FunctionResult]; when the callable
    throws a [std::exception], the adapter throws a [std::runtime_error]
    whose message is the message of that exception behind
    "Constructor failed: " (constructor from [std::function]),
    "Function call failed: " (constructor from a function) or
    "Lambda execution failed: " (constructor from another callable); when
    the callable throws a value of another type, that value leaves the
    adapter as it is.  An empty [CppFunction] throws
    "CppFunction is not initialized".  So every [std::exception] that leaves
    an adapter is a [std::runtime_error]: a [std::out_of_range] raised
    inside does not come out as such. *)
Theorem adapters_rewrap_std_exceptions `{Host} (func callable : FunctionArgs → M World IValue)
    (f : function) (args : FunctionArgs) (w : World) :
  call_with_args (CppFunction_of_std_function func) args w
  = adapted "Constructor failed: " (func args w) ∧
  call_with_args (CppFunction_of_function f) args w
  = adapted "Function call failed: " (call_function f args w) ∧
  call_with_args (CppFunction_of_callable callable) args w
  = adapted "Lambda execution failed: " (callable args w) ∧
  call_with_args CppFunction_default args w
  = (Throws (Exception runtime_error "CppFunction is not initialized"), w) ∧
  (∀ (e : exception) w',
     callable args w = (Throws e, w') →
     call_with_args (CppFunction_of_callable callable) args w
     = (Throws (Exception runtime_error ("Lambda execution failed: " +:+ what e)), w')) ∧
  (∀ v w',
     callable args w = (Throws (NonStd v), w') →
     call_with_args (CppFunction_of_callable callable) args w
     = (Throws (NonStd v), w')) ∧
  (∀ self (e : exception) w',
     constructed self →
     call_with_args self args w = (Throws e, w') →
     exception_class e = runtime_error).
Proof.
  split; [apply call_with_args_of_std_function|].
  split; [apply call_with_args_of_function|].
  split; [apply call_with_args_of_callable|].
  split; [reflexivity|]. split; [|split].
  - intros e w' Hthrow. by rewrite call_with_args_of_callable, Hthrow.
  - intros v w' Hthrow. by rewrite call_with_args_of_callable, Hthrow.
  - intros self e w' [|func0|f0|f0] Hcall.
    + by inversion Hcall.
    + rewrite call_with_args_of_std_function in Hcall. unfold adapted in Hcall.
      destruct (func0 args w) as [[v|[e0|v0]] w0]; by inversion Hcall.
    + rewrite call_with_args_of_function in Hcall. unfold adapted in Hcall.
      destruct (call_function f0 args w) as [[v|[e0|v0]] w0]; by inversion Hcall.
    + rewrite call_with_args_of_callable in Hcall. unfold adapted in Hcall.
      destruct (f0 args w) as [[v|[e0|v0]] w0]; by inversion Hcall.
Qed.

Lemma adapters_rewrap_std_exceptions_witness :
  get (H := DemoRegistry.H) Demo.t_int64 5 FunctionArgs_default []
  = (Throws (Exception out_of_range "Argument index out of range"), []) ∧
  call_with_args (H := DemoRegistry.H)
    (CppFunction_of_callable (H := DemoRegistry.H) DemoLibrary.reads_sixth_argument)
    FunctionArgs_default []
  = (Throws (Exception runtime_error
               "Lambda execution failed: Argument index out of range"), []) ∧
  call_with_args (H := DemoRegistry.H)
    (CppFunction_of_callable (H := DemoRegistry.H) (Demo.throwing_int "lambda"))
    FunctionArgs_default []
  = (Throws (NonStd (thrown_int 42)), ["lambda"]).
Proof.
  split; [reflexivity|]. split.
  - destruct (adapters_rewrap_std_exceptions (H := DemoRegistry.H)
                DemoLibrary.reads_sixth_argument DemoLibrary.reads_sixth_argument
                DemoRegistry.add FunctionArgs_default [])
      as (_ & _ & _ & _ & Hstd & _).
    apply (Hstd (Exception out_of_range "Argument index out of range") []).
    reflexivity.
  - destruct (adapters_rewrap_std_exceptions (H := DemoRegistry.H)
                (Demo.throwing_int "lambda") (Demo.throwing_int "lambda")
                DemoRegistry.add FunctionArgs_default [])
      as (_ & _ & _ & _ & _ & Hnonstd & _).
    apply (Hnonstd (thrown_int 42) ["lambda"]). reflexivity.
Defined.

(** ** function_traits: free functions *)

(** X4. An adapter made from a function checks the number of arguments
    before anything else: when it differs from the number of parameters the
    call fails with "Function call failed: Function expects <n> arguments,
    got <size>" in an untouched state, no argument converted and the
    function not entered. *)
Theorem function_arity_checked_first `{Host} (f : function) (args : FunctionArgs)
    (w : World) :
  size args ≠ length (fn_Args f) →
  call_with_args (CppFunction_of_function f) args w
  = (Throws (Exception runtime_error
               ("Function call failed: " +:+
                ("Function expects " +:+ to_string (length (fn_Args f)) +:+
                 " arguments, got " +:+ to_string (size args)))), w).
Proof.
  intros Hne. rewrite call_with_args_of_function. unfold call_function.
  by rewrite bool_decide_eq_true_2.
Qed.

Lemma function_arity_checked_first_witness :
  call_with_args (H := DemoRegistry.H) (CppFunction_of_function DemoRegistry.add)
    (FunctionArgs_of [arg_integer 2]) []
  = (Throws (Exception runtime_error
               "Function call failed: Function expects 2 arguments, got 1"), []).
Proof.
  apply (function_arity_checked_first (H := DemoRegistry.H) DemoRegistry.add
           (FunctionArgs_of [arg_integer 2]) []).
  vm_compute. lia.
Defined.

(** X5. A function declared [void] gives the void result: whenever the
    call of its adapter returns, the result is [void_result()], it has no
    value, and a typed [get<T>()] on it fails with
    "No return value (void function)". *)
Theorem void_function_gives_void_result `{Host} (f : function) (args : FunctionArgs)
    (w w' : World) (r : FunctionResult) :
  fn_R f = None →
  call_with_args (CppFunction_of_function f) args w = (Returns r, w') →
  r = void_result ∧ has_value r = false ∧
  ∀ T w0, FunctionResult_get T r w0
          = (Throws (Exception runtime_error "No return value (void function)"), w0).
Proof.
  intros Hvoid Hcall. assert (r = void_result) as ->; [|done].
  rewrite call_with_args_of_function in Hcall. unfold call_function in Hcall.
  destruct f as [Args R body]. simpl in *. subst R.
  unfold adapted in Hcall. case_bool_decide; [done|]. unfold bind, ret in Hcall.
  destruct (to_tuple_impl Args 0 args w) as [[t|[e|?]] w1]; [|done..].
  destruct (body t w1) as [[x|[e|?]] w2]; [|done..].
  by inversion Hcall.
Qed.

Lemma void_function_gives_void_result_witness :
  call_with_args (H := DemoRegistry.H) (CppFunction_of_function DemoLibrary.touch)
    (FunctionArgs_of [arg_integer 2]) []
  = (Returns void_result, ["convert Int to l"; "touch"]).
Proof.
  destruct (void_function_gives_void_result (H := DemoRegistry.H) DemoLibrary.touch
              (FunctionArgs_of [arg_integer 2]) [] ["convert Int to l"; "touch"]
              (FunctionResult_of_IValue INone) eq_refl eq_refl) as (Hvoid & _).
  rewrite <- Hvoid. reflexivity.
Defined.

(** ** class_: the adapter of an instance method *)


(** ** ClassRegistry: registrations and calls *)

Section registrations.
Context `{Host}.
Implicit Types (self : ClassRegistry) (reg : ClassRegistration) (func : CppFunction).
Implicit Types (args : FunctionArgs) (w : World).

Lemma register_constructor_registered qn func self reg :
  classes_ self !! qn = Some reg →
  register_constructor qn func self
  = Returns {| classes_ := <[qn := push_constructor func reg]> (classes_ self) |}.
Proof. intros Hreg. unfold register_constructor. by rewrite Hreg. Qed.

Lemma register_method_registered qn name func self reg :
  classes_ self !! qn = Some reg →
  register_method qn name func self
  = Returns {| classes_ := <[qn := set_method name func reg]> (classes_ self) |}.
Proof. intros Hreg. unfold register_method. by rewrite Hreg. Qed.

Lemma register_static_method_registered qn name func self reg :
  classes_ self !! qn = Some reg →
  register_static_method qn name func self
  = Returns {| classes_ := <[qn := set_static_method name func reg]> (classes_ self) |}.
Proof. intros Hreg. unfold register_static_method. by rewrite Hreg. Qed.


Lemma call_method_with_args_registered qn name args self reg method w :
  classes_ self !! qn = Some reg →
  methods reg !! name = Some method →
  call_method_with_args qn name args self w = call_with_args method args w.
Proof.
  intros Hreg Hm. unfold call_method_with_args. rewrite Hreg, Hm.
  rewrite try_catch_rethrow. apply bind_ret_r.
Qed.

Lemma call_static_method_with_args_registered qn name args self reg method w :
  classes_ self !! qn = Some reg →
  static_methods reg !! name = Some method →
  call_static_method_with_args qn name args self w = call_with_args method args w.
Proof.
  intros Hreg Hm. unfold call_static_method_with_args. rewrite Hreg, Hm.
  rewrite try_catch_rethrow. apply bind_ret_r.
Qed.
End registrations.



(** X7. Nothing is registered on a class that was not registered itself:
    for an unknown qualified name [register_constructor], [register_method]
    and [register_static_method] all throw "Class <name> not found", and no
    class appears under that name. *)
Theorem registration_requires_class `{Host} (qualified_name method_name : string)
    (func : CppFunction) (self : ClassRegistry) :
  classes_ self !! qualified_name = None →
  let not_found :=
    Exception runtime_error ("Class " +:+ qualified_name +:+ " not found") in
  register_constructor qualified_name func self = Throws not_found ∧
  register_method qualified_name method_name func self = Throws not_found ∧
  register_static_method qualified_name method_name func self = Throws not_found ∧
  has_class qualified_name
    (register self (add_constructor qualified_name func)) = false.
Proof.
  intros Hnone not_found.
  unfold register_constructor, register_method, register_static_method, register.
  unfold register_constructor. rewrite !Hnone. simpl.
  repeat split. unfold has_class. rewrite Hnone.
  apply bool_decide_eq_false. by intros [? ?].
Qed.

Lemma registration_requires_class_witness :
  register_method (H := DemoRegistry.H) "ns::Missing" "value"
    CppFunction_default DemoRegistry.classes
  = Throws (Exception runtime_error "Class ns::Missing not found").
Proof.
  apply (registration_requires_class (H := DemoRegistry.H) "ns::Missing" "value"
           CppFunction_default DemoRegistry.classes).
  reflexivity.
Defined.



(** X9. A method registered on a class is what [call_method_with_args]
    then runs under that name, whatever was registered under it before, and
    the call is the call of the adapter itself: its result, its state and,
    when it fails, its very exception (nothing is added to the message).
    The other instance methods, the static methods (of any name) and the
    constructors of the class are as before. *)
Theorem registered_method_is_called `{Host} (qualified_name method_name : string)
    (func : CppFunction) (self : ClassRegistry) (reg : ClassRegistration) :
  classes_ self !! qualified_name = Some reg →
  let extended := register self (add_method qualified_name method_name func) in
  (∀ args w,
     call_method_with_args qualified_name method_name args extended w
     = call_with_args func args w) ∧
  has_method qualified_name method_name extended = true ∧
  (∀ other args w,
     other ≠ method_name →
     call_method_with_args qualified_name other args extended w
     = call_method_with_args qualified_name other args self w) ∧
  (∀ other args w,
     call_static_method_with_args qualified_name other args extended w
     = call_static_method_with_args qualified_name other args self w) ∧
  (∀ args w,
     call_constructor_with_args qualified_name args extended w
     = call_constructor_with_args qualified_name args self w).
Proof.
  intros Hreg extended.
  assert (classes_ extended !! qualified_name = Some (set_method method_name func reg))
    as Hext.
  { unfold extended, register. rewrite (register_method_registered _ _ _ _ _ Hreg).
    simpl. apply lookup_insert_eq. }
  split; [|split; [|split; [|split]]].
  - intros args w. eapply call_method_with_args_registered; [exact Hext|].
    simpl. apply lookup_insert_eq.
  - unfold has_method. rewrite Hext. simpl. apply bool_decide_eq_true.
    rewrite lookup_insert_eq. by eexists.
  - intros other args w Hne. unfold call_method_with_args. rewrite Hext, Hreg. simpl.
    by rewrite lookup_insert_ne.
  - intros other args w. unfold call_static_method_with_args. by rewrite Hext, Hreg.
  - intros args w. unfold call_constructor_with_args. by rewrite Hext, Hreg.
Qed.

Lemma registered_method_is_called_witness :
  let plus :=
    CppFunction_of_callable (H := DemoRegistry.H) (method_func DemoLibrary.Counter_plus) in
  let extended :=
    register (H := DemoRegistry.H) DemoRegistry.classes
      (add_method "ns::Counter" "plus" plus) in
  call_method_with_args (H := DemoRegistry.H) "ns::Counter" "plus"
    (FunctionArgs_of [arg_object 5; arg_integer 2]) extended []
  = (Returns (FunctionResult_of_IValue (IInt 7)),
     ["convert CustomClass to P6Object"; "convert Int to l"; "Counter::plus"]).
Proof.
  intros plus extended.
  destruct (registered_method_is_called (H := DemoRegistry.H) "ns::Counter" "plus" plus
              DemoRegistry.classes _ eq_refl) as [Hcall _].
  unfold extended. rewrite Hcall. reflexivity.
Defined.

(** X10. Static methods live apart from instance methods.  A static method
    registered on a class is what [call_static_method_with_args] runs under
    that name, the call being the call of the adapter itself; the instance
    methods are untouched, also the one of the same name, so
    [call_method_with_args] answers as before; and a name registered only
    as a static method is no instance method: when the class has no
    instance method of that name the instance call fails with
    "Method <name> not found in <class>!". *)
Theorem registered_static_method_is_called `{Host} (qualified_name method_name : string)
    (func : CppFunction) (self : ClassRegistry) (reg : ClassRegistration) :
  classes_ self !! qualified_name = Some reg →
  let extended := register self (add_static_method qualified_name method_name func) in
  (∀ args w,
     call_static_method_with_args qualified_name method_name args extended w
     = call_with_args func args w) ∧
  has_static_method qualified_name method_name extended = true ∧
  (∀ other args w,
     other ≠ method_name →
     call_static_method_with_args qualified_name other args extended w
     = call_static_method_with_args qualified_name other args self w) ∧
  (∀ other args w,
     call_method_with_args qualified_name other args extended w
     = call_method_with_args qualified_name other args self w) ∧
  (methods reg !! method_name = None →
   ∀ args w,
     call_method_with_args qualified_name method_name args extended w
     = (Throws (Exception runtime_error
                  ("Method " +:+ method_name +:+ " not found in " +:+
                   qualified_name +:+ "!")), w)).
Proof.
  intros Hreg extended.
  assert (classes_ extended !! qualified_name
          = Some (set_static_method method_name func reg)) as Hext.
  { unfold extended, register.
    rewrite (register_static_method_registered _ _ _ _ _ Hreg).
    simpl. apply lookup_insert_eq. }
  split; [|split; [|split; [|split]]].
  - intros args w. eapply call_static_method_with_args_registered; [exact Hext|].
    simpl. apply lookup_insert_eq.
  - unfold has_static_method. rewrite Hext. simpl. apply bool_decide_eq_true.
    rewrite lookup_insert_eq. by eexists.
  - intros other args w Hne. unfold call_static_method_with_args.
    rewrite Hext, Hreg. simpl. by rewrite lookup_insert_ne.
  - intros other args w. unfold call_method_with_args. by rewrite Hext, Hreg.
  - intros Hnone args w. unfold call_method_with_args. rewrite Hext. simpl.
    by rewrite Hnone.
Qed.

Lemma registered_static_method_is_called_witness :
  let zero :=
    CppFunction_of_callable (H := DemoRegistry.H) (Demo.returning "zero" (IInt 0)) in
  let extended :=
    register (H := DemoRegistry.H) DemoRegistry.classes
      (add_static_method "ns::Counter" "zero" zero) in
  call_static_method_with_args (H := DemoRegistry.H) "ns::Counter" "zero"
    FunctionArgs_default extended []
  = (Returns (FunctionResult_of_IValue (IInt 0)), ["zero"]) ∧
  call_method_with_args (H := DemoRegistry.H) "ns::Counter" "zero"
    FunctionArgs_default extended []
  = (Throws (Exception runtime_error "Method zero not found in ns::Counter!"), []).
Proof.
  intros zero extended.
  destruct (registered_static_method_is_called (H := DemoRegistry.H) "ns::Counter" "zero"
              zero DemoRegistry.classes _ eq_refl) as (Hcall & _ & _ & _ & Hinstance).
  unfold extended. split.
  - rewrite Hcall. reflexivity.
  - apply Hinstance. reflexivity.
Defined.

(** ** ClassRegistry: the call with the instance apart *)

Section instance_call.
Context `{Host}.

Lemma prepend_instance_loop (args acc : FunctionArgs) (n : nat) (w : World) :
  n ≤ size args →
  foldl (λ acc i,
           method_args <- acc ;;
           match get_value args i with
           | Returns v => ret (add_arg (arg_IValue v) method_args)
           | Throws e => throw e
           end)
    (ret acc) (seq 0 n) w
  = (Returns {| args_ := args_ acc ++ take n (args_ args) |}, w).
Proof.
  unfold size. induction n as [|n IH]; intros Hn.
  - simpl. unfold ret. rewrite take_0, app_nil_r. by destruct acc.
  - rewrite seq_S, foldl_app. cbn [foldl]. change (0 + n) with n.
    unfold bind at 1. rewrite IH by lia.
    unfold get_value. rewrite bool_decide_eq_false_2 by lia.
    destruct (lookup_lt_is_Some_2 (args_ args) n) as [v Hv]; [lia|].
    rewrite (list_lookup_total_correct _ _ _ Hv). unfold ret. simpl.
    by rewrite (take_S_r _ _ _ Hv), app_assoc.
Qed.
End instance_call.

(** X11. The overload of [call_method_with_args] that takes the instance
    apart calls the registered method on the argument list made of the
    instance followed by the given arguments in their order; the call is
    that of the adapter itself, failures included. *)
Theorem call_with_instance_prepends_it `{Host} (qualified_name method_name : string)
    (instance : IValue) (args : FunctionArgs) (self : ClassRegistry)
    (reg : ClassRegistration) (method : CppFunction) (w : World) :
  classes_ self !! qualified_name = Some reg →
  methods reg !! method_name = Some method →
  call_method_with_instance qualified_name method_name instance args self w
  = call_with_args method (from_vector (instance :: args_ args)) w ∧
  call_method_with_instance qualified_name method_name instance args self w
  = call_method_with_args qualified_name method_name
      (from_vector (instance :: args_ args)) self w.
Proof.
  intros Hreg Hm.
  assert (call_method_with_instance qualified_name method_name instance args self w
          = call_with_args method (from_vector (instance :: args_ args)) w) as Hcall.
  { unfold call_method_with_instance. rewrite Hreg, Hm, try_catch_rethrow.
    unfold bind at 1. rewrite prepend_instance_loop by done.
    rewrite bind_ret_r. simpl. unfold size. by rewrite firstn_all. }
  split; [done|]. rewrite Hcall. symmetry.
  by eapply call_method_with_args_registered.
Qed.

Lemma call_with_instance_prepends_it_witness :
  call_method_with_instance (H := DemoRegistry.H) "ns::Counter" "value" (IObject 7)
    FunctionArgs_default DemoRegistry.classes []
  = (Returns (FunctionResult_of_IValue (IInt 7)),
     ["convert CustomClass to P6Object"; "Counter::value"]).
Proof.
  destruct (call_with_instance_prepends_it (H := DemoRegistry.H) "ns::Counter" "value"
              (IObject 7) FunctionArgs_default DemoRegistry.classes _ _ [] eq_refl eq_refl)
    as [Hcall _].
  rewrite Hcall. reflexivity.
Defined.

(** ** class_: chains of declarations *)

Section chains.
Context `{Host}.
Implicit Types (registry : ClassRegistry) (reg : ClassRegistration).
Implicit Types (args : FunctionArgs) (w : World).

Lemma declare_on_registered_class {CurClass : Ty} (d : declaration CurClass)
    (self : class_ CurClass) registry reg :
  classes_ registry !! qualified_name_ self = Some reg →
  ∃ registry' reg',
    declare d self registry = Returns registry' ∧
    classes_ registry' !! qualified_name_ self = Some reg' ∧
    constructors reg' = constructors reg ++ option_list (declared_constructor d) ∧
    ∀ qn, is_Some (classes_ registry !! qn) → is_Some (classes_ registry' !! qn).
Proof.
  intros Hreg.
  assert (∀ reg' qn,
            is_Some (classes_ registry !! qn) →
            is_Some (<[qualified_name_ self := reg']> (classes_ registry) !! qn))
    as Hkept.
  { intros reg' qn Hqn. destruct (decide (qualified_name_ self = qn)) as [<-|Hne].
    - rewrite lookup_insert_eq. by eexists.
    - by rewrite lookup_insert_ne. }
  destruct d as [Types make_intrusive|name [f|f]|name f]; simpl.
  - unfold def_init. rewrite (register_constructor_registered _ _ _ _ Hreg).
    eexists _, _. split; [done|]. simpl. split; [apply lookup_insert_eq|].
    split; [done|]. apply Hkept.
  - rewrite (register_method_registered _ _ _ _ _ Hreg).
    eexists _, _. split; [done|]. simpl. split; [apply lookup_insert_eq|].
    split; [by rewrite app_nil_r|]. apply Hkept.
  - exists registry, reg. split; [done|]. split; [done|].
    split; [by rewrite app_nil_r|]. done.
  - unfold def_static. rewrite (register_static_method_registered _ _ _ _ _ Hreg).
    eexists _, _. split; [done|]. simpl. split; [apply lookup_insert_eq|].
    split; [by rewrite app_nil_r|]. apply Hkept.
Qed.

Lemma declare_all_on_registered_class {CurClass : Ty} (ds : list (declaration CurClass))
    (self : class_ CurClass) registry reg :
  classes_ registry !! qualified_name_ self = Some reg →
  ∃ registry' reg',
    declare_all ds self registry = Returns registry' ∧
    classes_ registry' !! qualified_name_ self = Some reg' ∧
    constructors reg' = constructors reg ++ omap declared_constructor ds ∧
    ∀ qn, is_Some (classes_ registry !! qn) → is_Some (classes_ registry' !! qn).
Proof.
  revert registry reg. induction ds as [|d ds IH]; intros registry reg Hreg.
  - exists registry, reg. simpl. by rewrite app_nil_r.
  - destruct (declare_on_registered_class d self registry reg Hreg)
      as (r1 & reg1 & Hd & Hreg1 & Hcs1 & Hkept1).
    destruct (IH r1 reg1 Hreg1) as (r2 & reg2 & Hds & Hreg2 & Hcs2 & Hkept2).
    exists r2, reg2. simpl. rewrite Hd. split; [done|]. split; [done|]. split.
    + rewrite Hcs2, Hcs1, <- app_assoc. f_equal.
      by destruct (declared_constructor d).
    + intros qn Hqn. by apply Hkept2, Hkept1.
Qed.

Lemma constructor_of_other_arity_fails {Types : list Ty}
    (make_intrusive : tuple Types → M World positive) args w :
  size args ≠ length Types →
  ∃ e : exception,
    call_with_args (CppFunction_of_callable (constructor_func Types make_intrusive))
      args w = (Throws e, w).
Proof.
  intros Hne. rewrite call_with_args_of_callable. unfold constructor_func.
  destruct Types as [|T Types]; rewrite bool_decide_eq_true_2 by done; by eexists.
Qed.

Lemma try_constructors_of_matching_arity {CurClass : Ty} qn
    (ds : list (declaration CurClass)) args w :
  try_constructors qn (omap declared_constructor ds) args w
  = try_constructors qn
      (omap declared_constructor
         (filter (λ d, declared_arity d = Some (size args)) ds)) args w.
Proof.
  revert w. induction ds as [|d ds IH]; intros w; [done|].
  rewrite filter_cons. destruct (decide (declared_arity d = Some (size args))) as [Hd|Hd].
  - destruct d as [Types make_intrusive|name f|name f]; [|done..].
    cbn [omap list_omap declared_constructor]. rewrite !try_constructors_cons.
    destruct (call_with_args _ args w) as [[r|[e|?]] w1]; [done| |done]. apply IH.
  - destruct d as [Types make_intrusive|name f|name f];
      cbn [omap list_omap declared_constructor]; [|apply IH..].
    rewrite try_constructors_cons.
    destruct (constructor_of_other_arity_fails make_intrusive args w) as [e ->].
    + intros Heq. apply Hd. simpl. by rewrite Heq.
    + apply IH.
Qed.
End chains.

(** X12. A chain of declarations on a class builder never fails for want
    of the class: the builder registers the class when it is created, so
    every [def] and [def_static] of the chain returns.  At the end the class
    holds the constructor adapters of the [def(init<...>())] links, in the
    order of the chain (the order overload resolution follows), and every
    class known before is still known. *)
Theorem declarations_on_a_builder_succeed `{Host} (CurClass : Ty)
    (namespaceName className : string) (registry : ClassRegistry)
    (ds : list (declaration CurClass)) :
  let created := class_new CurClass namespaceName className registry in
  ∃ registry' reg,
    declare_all ds created.1 created.2 = Returns registry' ∧
    classes_ registry' !! (namespaceName +:+ "::" +:+ className) = Some reg ∧
    constructors reg = omap declared_constructor ds ∧
    ∀ qn, has_class qn registry = true → has_class qn registry' = true.
Proof.
  intros created.
  destruct (declare_all_on_registered_class ds created.1 created.2
              (ClassRegistration_new namespaceName className))
    as (registry' & reg & Hds & Hreg & Hcs & Hkept).
  { apply register_class_lookup. }
  exists registry', reg. split; [done|]. split; [done|]. split; [done|].
  intros qn Hqn. unfold has_class in *. apply bool_decide_eq_true in Hqn.
  apply bool_decide_eq_true. apply Hkept. unfold created, class_new. cbn [snd].
  destruct (decide (namespaceName +:+ "::" +:+ className = qn)) as [<-|Hne].
  - rewrite register_class_lookup. by eexists.
  - by rewrite register_class_lookup_ne.
Qed.

(** X13. Overload resolution only ever runs constructors with as many
    parameters as there are arguments.  On a class whose constructors were
    declared with [def(init<...>())], [call_constructor_with_args] behaves
    as the loop over the declared constructors of that arity alone: the
    others fail their count check without converting or constructing
    anything.  When no declared constructor has that arity the call fails
    with "No suitable constructor found for <name>" in an untouched state. *)
Theorem only_constructors_of_matching_arity_run `{Host} (CurClass : Ty)
    (qualified_name : string) (ds : list (declaration CurClass)) (args : FunctionArgs)
    (self : ClassRegistry) (reg : ClassRegistration) (w : World) :
  classes_ self !! qualified_name = Some reg →
  constructors reg = omap declared_constructor ds →
  constructors reg ≠ [] →
  call_constructor_with_args qualified_name args self w
  = try_constructors qualified_name
      (omap declared_constructor
         (filter (λ d, declared_arity d = Some (size args)) ds)) args w ∧
  (Forall (λ d, declared_arity d ≠ Some (size args)) ds →
   call_constructor_with_args qualified_name args self w
   = (Throws (Exception runtime_error
                ("No suitable constructor found for " +:+ qualified_name)), w)).
Proof.
  intros Hreg Hcs Hne.
  rewrite (call_constructor_with_args_registered _ _ _ _ _ Hreg Hne), Hcs.
  rewrite try_constructors_of_matching_arity. split; [done|].
  intros Hnone.
  replace (filter (λ d, declared_arity d = Some (size args)) ds) with
    (@nil (declaration CurClass)); [done|].
  clear Hcs. induction Hnone as [|d ds Hd _ IH]; [done|].
  by rewrite filter_cons_False.
Qed.

Lemma only_constructors_of_matching_arity_run_witness :
  call_constructor_with_args (H := DemoRegistry.H) "ns::Counter"
    (FunctionArgs_of [arg_integer 1; arg_integer 2]) DemoRegistry.classes []
  = (Throws (Exception runtime_error "No suitable constructor found for ns::Counter"), []).
Proof.
  destruct (only_constructors_of_matching_arity_run (H := DemoRegistry.H) Demo.t_object
              "ns::Counter" DemoLibrary.Counter_declarations
              (FunctionArgs_of [arg_integer 1; arg_integer 2])
              DemoRegistry.classes _ [] eq_refl eq_refl) as [_ Hnone].
  - done.
  - apply Hnone. repeat constructor; done.
Defined.

Lemma declarations_on_a_builder_succeed_witness :
  ∃ registry',
    declare_all (H := DemoRegistry.H) DemoLibrary.Counter_declarations
      (class_new (H := DemoRegistry.H) Demo.t_object "ns" "Counter"
         DemoRegistry.no_classes).1
      (class_new (H := DemoRegistry.H) Demo.t_object "ns" "Counter"
         DemoRegistry.no_classes).2
    = Returns registry' ∧
    ∃ reg, classes_ registry' !! "ns::Counter" = Some reg ∧ length (constructors reg) = 2.
Proof.
  destruct (declarations_on_a_builder_succeed (H := DemoRegistry.H) Demo.t_object
              "ns" "Counter" DemoRegistry.no_classes DemoLibrary.Counter_declarations)
    as (registry' & reg & Hds & Hreg & Hcs & _).
  exists registry'. split; [exact Hds|]. exists reg. split; [exact Hreg|].
  rewrite Hcs. reflexivity.
Defined.

(** ** Registries: names *)

(** X14. The class registry keeps every registration under its own name:
    starting from the empty registry, after any [register_class] and any
    registration of a constructor, a method or a static method, each
    registration found under a qualified name carries that name, and the
    name is its namespace and class name joined by "::". *)
Theorem class_registrations_keep_their_name `{Host} :
  classes_consistent {| classes_ := ∅ |} ∧
  (∀ self ns name,
     classes_consistent self → classes_consistent (register_class ns name self)) ∧
  (∀ self r, classes_consistent self → classes_consistent (register self r)).
Proof.
  split; [|split].
  - intros qn reg Hreg. simpl in Hreg. by rewrite lookup_empty in Hreg.
  - intros self ns name Hself qn reg Hreg. unfold register_class in Hreg. simpl in Hreg.
    destruct (decide (ns +:+ "::" +:+ name = qn)) as [<-|Hne].
    + rewrite lookup_insert_eq in Hreg. by inversion Hreg.
    + rewrite lookup_insert_ne in Hreg by done. by apply Hself.
  - intros self r Hself qn reg Hreg.
    assert (∀ target (update : ClassRegistration → ClassRegistration),
              (∀ old, qualified_name (update old) = qualified_name old ∧
                      namespace_name (update old) = namespace_name old ∧
                      class_name (update old) = class_name old) →
              ∀ old, classes_ self !! target = Some old →
                     <[target := update old]> (classes_ self) !! qn = Some reg →
                     qualified_name reg = qn ∧
                     qn = namespace_name reg +:+ "::" +:+ class_name reg) as Hupdate.
    { intros target update Hnames old Hold Hlookup.
      destruct (decide (target = qn)) as [<-|Hne].
      - rewrite lookup_insert_eq in Hlookup. inversion Hlookup; subst.
        destruct (Hnames old) as (-> & -> & ->). by apply Hself.
      - rewrite lookup_insert_ne in Hlookup by done. by apply Hself. }
    destruct r as [target func|target name func|target name func]; simpl in Hreg.
    + unfold register_constructor in Hreg.
      destruct (classes_ self !! target) as [old|] eqn:Hold; simpl in Hreg.
      * by eapply (Hupdate target (push_constructor func)).
      * by apply Hself.
    + unfold register_method in Hreg.
      destruct (classes_ self !! target) as [old|] eqn:Hold; simpl in Hreg.
      * by eapply (Hupdate target (set_method name func)).
      * by apply Hself.
    + unfold register_static_method in Hreg.
      destruct (classes_ self !! target) as [old|] eqn:Hold; simpl in Hreg.
      * by eapply (Hupdate target (set_static_method name func)).
      * by apply Hself.
Qed.

Section operator_registrations.
Context `{Host}.
Implicit Types (self : OperatorRegistry) (func : CppFunction) (key : DispatchKey).

Lemma register_schema_eq qn schema_str self :
  register_schema qn schema_str self
  = {| operators_ :=
         <[qn := {| op_qualified_name :=
                      from_option op_qualified_name qn (operators_ self !! qn);
                    schema := schema_str;
                    implementations :=
                      from_option implementations ∅ (operators_ self !! qn) |}]>
           (operators_ self) |}.
Proof.
  unfold register_schema, get_or_create_operator.
  destruct (operators_ self !! qn) as [op|]; simpl; [done|].
  by rewrite insert_insert_eq.
Qed.

Lemma register_implementation_eq qn key func self :
  register_implementation qn key func self
  = {| operators_ :=
         <[qn := {| op_qualified_name :=
                      from_option op_qualified_name qn (operators_ self !! qn);
                    schema := from_option schema "" (operators_ self !! qn);
                    implementations :=
                      <[key := func]>
                        (from_option implementations ∅ (operators_ self !! qn)) |}]>
           (operators_ self) |}.
Proof.
  unfold register_implementation, get_or_create_operator.
  destruct (operators_ self !! qn) as [op|]; simpl; [done|].
  by rewrite insert_insert_eq.
Qed.

Lemma execute_with_args_same_operator qn key args self self' :
  find_operator qn self' = find_operator qn self →
  ∀ w, execute_operator_with_args qn key args self' w
       = execute_operator_with_args qn key args self w.
Proof. intros Heq w. unfold execute_operator_with_args. by rewrite Heq. Qed.
End operator_registrations.

(** X15. The operator registry keeps every registration under its own
    name: starting from the empty registry, after any [register_schema] and
    [register_implementation], each registration found under a qualified
    name carries that name. *)
Theorem operator_registrations_keep_their_name `{Host} :
  operators_consistent {| operators_ := ∅ |} ∧
  (∀ self qn schema_str,
     operators_consistent self →
     operators_consistent (register_schema qn schema_str self)) ∧
  (∀ self qn key func,
     operators_consistent self →
     operators_consistent (register_implementation qn key func self)).
Proof.
  split; [|split].
  - intros qn op Hop. simpl in Hop. by rewrite lookup_empty in Hop.
  - intros self qn schema_str Hself qn' op Hop.
    rewrite register_schema_eq in Hop. simpl in Hop.
    destruct (decide (qn = qn')) as [<-|Hne].
    + rewrite lookup_insert_eq in Hop. inversion Hop; subst. simpl.
      destruct (operators_ self !! qn) as [old|] eqn:Hold; simpl; [|done].
      by apply Hself.
    + rewrite lookup_insert_ne in Hop by done. by apply Hself.
  - intros self qn key func Hself qn' op Hop.
    rewrite register_implementation_eq in Hop. simpl in Hop.
    destruct (decide (qn = qn')) as [<-|Hne].
    + rewrite lookup_insert_eq in Hop. inversion Hop; subst. simpl.
      destruct (operators_ self !! qn) as [old|] eqn:Hold; simpl; [|done].
      by apply Hself.
    + rewrite lookup_insert_ne in Hop by done. by apply Hself.
Qed.

(** ** OperatorRegistry: registration then dispatch *)





(** X18. Registering a schema does not touch dispatch: for an operator
    that is already registered, and for every other operator, calls give
    what they gave before.  For a name unknown until then the schema creates
    a registration without implementation, so that a call under any key no
    longer fails with "Operator <name> not found!" but with
    "No implementation found for <name> with <key>". *)
Theorem schema_registration_keeps_dispatch `{Host} (qualified_name schema_str : string)
    (self : OperatorRegistry) :
  let extended := register_schema qualified_name schema_str self in
  (∃ op, find_operator qualified_name extended = Some op ∧ schema op = schema_str) ∧
  (∀ other key args w,
     other ≠ qualified_name ∨ is_Some (find_operator qualified_name self) →
     execute_operator_with_args other key args extended w
     = execute_operator_with_args other key args self w) ∧
  (find_operator qualified_name self = None →
   ∀ key args w,
     execute_operator_with_args qualified_name key args extended w
     = (Throws (Exception runtime_error
                  ("No implementation found for " +:+ qualified_name +:+ " with " +:+
                   dispatch_key_to_string key)), w)).
Proof.
  intros extended. unfold extended. rewrite register_schema_eq.
  split; [|split].
  - unfold find_operator. simpl. rewrite lookup_insert_eq. by eexists.
  - intros other key args w Hcase. unfold execute_operator_with_args, find_operator.
    simpl. destruct (decide (qualified_name = other)) as [<-|Hne].
    + destruct Hcase as [?|[op Hop]]; [done|]. unfold find_operator in Hop.
      rewrite lookup_insert_eq, Hop. done.
    + by rewrite lookup_insert_ne.
  - intros Hnone key args w. unfold find_operator in Hnone.
    eapply execute_with_args_no_implementation.
    + unfold find_operator. simpl. apply lookup_insert_eq.
    + simpl. rewrite Hnone. simpl. apply lookup_empty.
    + simpl. rewrite Hnone. simpl. apply lookup_empty.
Qed.


(** X20. The schema and the implementations of an operator are registered
    independently: registering a schema and registering an implementation,
    for the same operator or for two different ones, give the same registry
    in either order. *)
Theorem schema_and_implementation_commute `{Host} (qn1 qn2 schema_str : string)
    (key : DispatchKey) (func : CppFunction) (self : OperatorRegistry) :
  register_schema qn1 schema_str (register_implementation qn2 key func self)
  = register_implementation qn2 key func (register_schema qn1 schema_str self).
Proof.
  rewrite (register_schema_eq qn1), (register_implementation_eq qn2 key func (register_schema _ _ _)).
  rewrite register_implementation_eq, register_schema_eq. simpl. f_equal.
  destruct (decide (qn1 = qn2)) as [<-|Hne].
  - rewrite !lookup_insert_eq, !insert_insert_eq. simpl.
    by destruct (operators_ self !! qn1).
  - rewrite !lookup_insert_ne by done. by apply insert_insert_ne.
Qed.

(** ** Library *)

Section strings.
Implicit Types (c : ascii) (s name rest : string).

Lemma append_cons c s rest : String c s +:+ rest = String c (s +:+ rest).
Proof. reflexivity. Qed.

Lemma find_append_first c name rest :
  find c name = None → find c (name +:+ String c rest) = Some (String.length name).
Proof.
  induction name as [|a name IH]; simpl; intros Hnone.
  - by rewrite decide_True.
  - destruct (decide (a = c)); [done|].
    destruct (find c name); [done|]. by rewrite IH.
Qed.

Lemma substring_append name rest :
  String.substring 0 (String.length name) (name +:+ rest) = name.
Proof.
  induction name as [|a name IH]; simpl.
  - by destruct rest.
  - by rewrite IH.
Qed.

Lemma find_substring c s pos :
  find c s = Some pos →
  find c (String.substring 0 pos s) = None ∧
  ∃ rest, s = String.substring 0 pos s +:+ rest.
Proof.
  revert pos. induction s as [|a s IH]; intros pos Hpos; [done|].
  simpl in Hpos. destruct (decide (a = c)) as [->|Hne].
  - inversion Hpos; subst. simpl. split; [done|]. by eexists.
  - destruct (find c s) as [p|] eqn:Hp; [|done]. inversion Hpos; subst.
    destruct (IH p eq_refl) as (Hnone & rest & Hrest). simpl. split.
    + rewrite decide_False by done. by rewrite Hnone.
    + exists rest. rewrite append_cons. f_equal. exact Hrest.
Qed.

Lemma extract_op_name_of_schema name params :
  find "(" name = None → extract_op_name (name +:+ String "(" params) = name.
Proof.
  intros Hnone. unfold extract_op_name.
  rewrite (find_append_first _ _ _ Hnone). apply substring_append.
Qed.
End strings.

(** X21. [extract_op_name] gives the part of its argument before the first
    opening parenthesis: the result is a prefix of the argument and holds no
    parenthesis, a string without parenthesis is returned whole, and for
    "<name>(<parameters>)" with a name free of parentheses the result is the
    name; extracting twice changes nothing. *)
Theorem extract_op_name_is_the_name_before_the_parenthesis (name_or_schema : string) :
  find "(" (extract_op_name name_or_schema) = None ∧
  (∃ rest, name_or_schema = extract_op_name name_or_schema +:+ rest) ∧
  extract_op_name (extract_op_name name_or_schema) = extract_op_name name_or_schema ∧
  (find "(" name_or_schema = None → extract_op_name name_or_schema = name_or_schema) ∧
  (∀ params,
     find "(" name_or_schema = None →
     extract_op_name (name_or_schema +:+ String "(" params) = name_or_schema).
Proof.
  assert (find "(" (extract_op_name name_or_schema) = None ∧
          ∃ rest, name_or_schema = extract_op_name name_or_schema +:+ rest)
    as [Hnone Hprefix].
  { unfold extract_op_name.
    destruct (find "(" name_or_schema) as [pos|] eqn:Hpos.
    - by apply find_substring.
    - split; [done|]. exists "". clear Hpos.
      induction name_or_schema as [|a s IH]; [done|].
      rewrite append_cons. by rewrite <- IH. }
  split; [done|]. split; [done|]. split; [|split].
  - unfold extract_op_name at 1. by rewrite Hnone.
  - intros Hs. unfold extract_op_name. by rewrite Hs.
  - intros params Hs. by apply extract_op_name_of_schema.
Qed.

Section library.
Context `{Host}.
Implicit Types (self : Library) (registry : OperatorRegistry).

Lemma find_operator_register_schema qn schema_str registry :
  ∃ op, find_operator qn (register_schema qn schema_str registry) = Some op ∧
        schema op = schema_str ∧
        implementations op
        = from_option implementations ∅ (find_operator qn registry).
Proof.
  rewrite register_schema_eq. unfold find_operator. simpl.
  rewrite lookup_insert_eq. by eexists.
Qed.

Lemma schema_after_register_implementation qn key func registry :
  ∃ op, find_operator qn (register_implementation qn key func registry) = Some op ∧
        schema op = from_option schema "" (find_operator qn registry).
Proof.
  rewrite register_implementation_eq. unfold find_operator. simpl.
  rewrite lookup_insert_eq. by eexists.
Qed.
End library.

(** X22. [Library::def(schema)] in a library of kind DEF or FRAGMENT stores
    the schema string whole, parameter list included, under the qualified
    name made of the namespace of the library, "::" and the operator name
    before the parenthesis, and leaves the implementations of that operator
    as they were; in a library of kind IMPL it registers nothing. *)
Theorem library_def_registers_the_schema `{Host} (name params : string) (self : Library)
    (registry : OperatorRegistry) :
  find "(" name = None →
  let schema_str := name +:+ String "(" params in
  let qualified_name := ns_ self +:+ "::" +:+ name in
  (kind_ self = IMPL → Library_def schema_str self registry = registry) ∧
  (kind_ self ≠ IMPL →
   ∃ op, find_operator qualified_name (Library_def schema_str self registry) = Some op ∧
         schema op = schema_str ∧
         implementations op
         = from_option implementations ∅ (find_operator qualified_name registry)).
Proof.
  intros Hname schema_str qualified_name. unfold Library_def. split.
  - by intros ->.
  - intros Hkind.
    assert (register_schema (ns_ self +:+ "::" +:+ extract_op_name schema_str)
              schema_str registry
            = register_schema qualified_name schema_str registry) as Hsame.
    { unfold schema_str. by rewrite extract_op_name_of_schema. }
    destruct (kind_ self); [|done|]; rewrite Hsame; apply find_operator_register_schema.
Qed.

Lemma library_def_registers_the_schema_witness :
  (∃ op, find_operator (H := DemoRegistry.H) "ns::sub"
           (Library_def "sub(a, b)" DemoLibrary.ops DemoRegistry.operators) = Some op ∧
         schema op = "sub(a, b)") ∧
  Library_def (H := DemoRegistry.H) "sub(a, b)" DemoLibrary.ops_cuda DemoRegistry.operators
  = DemoRegistry.operators.
Proof.
  destruct (library_def_registers_the_schema (H := DemoRegistry.H) "sub" "a, b)"
              DemoLibrary.ops DemoRegistry.operators eq_refl) as [_ Hdef].
  destruct (library_def_registers_the_schema (H := DemoRegistry.H) "sub" "a, b)"
              DemoLibrary.ops_cuda DemoRegistry.operators eq_refl) as [Himpl _].
  split.
  - destruct Hdef as (op & Hop & Hschema & _); [done|].
    exists op. split; [exact Hop|exact Hschema].
  - apply Himpl. reflexivity.
Defined.

(** X23. [Library::def(name_or_schema, f)] makes [f] the implementation of
    the operator named before the parenthesis, under the dispatch key of
    the library or CPU when it has none: a call under that key is from then
    on the invocation of the adapter of [f].  Given "<name>(<parameters>)"
    it also stores that string as the schema, in a library of any kind,
    IMPL included; given a bare name it leaves the schema as it was. *)
Theorem library_def_registers_the_implementation `{Host} (name params : string)
    (f : static_callable) (self : Library) (registry : OperatorRegistry) :
  find "(" name = None →
  let qualified_name := ns_ self +:+ "::" +:+ name in
  let key := default CPU (dispatch_key_ self) in
  let with_schema := Library_def_impl (name +:+ String "(" params) f self registry in
  let bare := Library_def_impl name f self registry in
  (∀ args w,
     execute_operator_with_args qualified_name key args with_schema w
     = with_context "Error executing operator: " (call (CppFunction_of_static f) args w)) ∧
  (∃ op, find_operator qualified_name with_schema = Some op ∧
         schema op = name +:+ String "(" params) ∧
  (∀ args w,
     execute_operator_with_args qualified_name key args bare w
     = with_context "Error executing operator: " (call (CppFunction_of_static f) args w)) ∧
  (∃ op, find_operator qualified_name bare = Some op ∧
         schema op = from_option schema "" (find_operator qualified_name registry)).
Proof.
  intros Hname qualified_name key with_schema bare.
  assert (with_schema
          = register_implementation qualified_name key (CppFunction_of_static f)
              (register_schema qualified_name (name +:+ String "(" params) registry))
    as ->.
  { unfold with_schema, Library_def_impl.
    rewrite (extract_op_name_of_schema _ _ Hname).
    by rewrite (find_append_first _ _ _ Hname). }
  assert (bare = register_implementation qualified_name key (CppFunction_of_static f)
                   registry) as ->.
  { unfold bare, Library_def_impl, extract_op_name. by rewrite Hname. }
  split; [|split; [|split]].
  - intros args w.
    destruct (find_operator_register_implementation qualified_name key
                (CppFunction_of_static f)
                (register_schema qualified_name (name +:+ String "(" params) registry))
      as (op & Hop & Himpl & _).
    by eapply execute_with_args_exact.
  - destruct (schema_after_register_implementation qualified_name key
                (CppFunction_of_static f)
                (register_schema qualified_name (name +:+ String "(" params) registry))
      as (op & Hop & Hschema).
    exists op. split; [done|]. rewrite Hschema.
    destruct (find_operator_register_schema qualified_name
                (name +:+ String "(" params) registry) as (op' & Hop' & Hschema' & _).
    rewrite Hop'. exact Hschema'.
  - intros args w.
    destruct (find_operator_register_implementation qualified_name key
                (CppFunction_of_static f) registry) as (op & Hop & Himpl & _).
    by eapply execute_with_args_exact.
  - apply schema_after_register_implementation.
Qed.

Lemma library_def_registers_the_implementation_witness :
  execute_operator_with_args (H := DemoRegistry.H) "ns::sum" CUDA
    [arg_integer 2; arg_integer 3]
    (Library_def_impl "sum(a, b)" (static_function DemoRegistry.add)
       DemoLibrary.ops_cuda DemoRegistry.no_operators) []
  = (Returns (FunctionResult_of_IValue (IInt 5)),
     ["convert Int to l"; "convert Int to l"; "add"]).
Proof.
  destruct (library_def_registers_the_implementation (H := DemoRegistry.H) "sum" "a, b)"
              (static_function DemoRegistry.add) DemoLibrary.ops_cuda
              DemoRegistry.no_operators eq_refl) as (Hcall & _).
  etransitivity; [exact (Hcall [arg_integer 2; arg_integer 3] [])|reflexivity].
Defined.

(** X24. [Library::impl(name, f)] makes [f] the implementation of the
    operator of that name in the namespace of the library, under the
    dispatch key of the library or CPU when it has none, and leaves the
    schema of the operator as it was (empty when the operator is new).  The
    name is taken as it is: nothing is cut at a parenthesis. *)
Theorem library_impl_registers_the_implementation `{Host} (op_name : string)
    (f : static_callable) (self : Library) (registry : OperatorRegistry) :
  let qualified_name := ns_ self +:+ "::" +:+ op_name in
  let key := default CPU (dispatch_key_ self) in
  let extended := Library_impl op_name f self registry in
  (∀ args w,
     execute_operator_with_args qualified_name key args extended w
     = with_context "Error executing operator: " (call (CppFunction_of_static f) args w)) ∧
  (∃ op, find_operator qualified_name extended = Some op ∧
         schema op = from_option schema "" (find_operator qualified_name registry)) ∧
  (∀ other key' args w,
     other ≠ qualified_name →
     execute_operator_with_args other key' args extended w
     = execute_operator_with_args other key' args registry w).
Proof.
  intros qualified_name key extended. unfold extended, Library_impl.
  split; [|split].
  - intros args w.
    destruct (find_operator_register_implementation qualified_name key
                (CppFunction_of_static f) registry) as (op & Hop & Himpl & _).
    by eapply execute_with_args_exact.
  - apply schema_after_register_implementation.
  - intros other key' args w Hne. apply execute_with_args_same_operator.
    unfold find_operator. rewrite register_implementation_eq. simpl.
    by rewrite lookup_insert_ne.
Qed.

Lemma library_impl_registers_the_implementation_witness :
  execute_operator_with_args (H := DemoRegistry.H) "ns::add" CUDA
    [arg_integer 2; arg_integer 3]
    (Library_impl "add"
       (static_lambda (H := DemoRegistry.H) (Demo.returning "add/cuda" (IInt 5)))
       DemoLibrary.ops_cuda DemoRegistry.operators) []
  = (Returns (FunctionResult_of_IValue (IInt 5)), ["add/cuda"]).
Proof.
  destruct (library_impl_registers_the_implementation (H := DemoRegistry.H) "add"
              (static_lambda (H := DemoRegistry.H) (Demo.returning "add/cuda" (IInt 5)))
              DemoLibrary.ops_cuda DemoRegistry.operators) as (Hcall & _).
  etransitivity; [exact (Hcall [arg_integer 2; arg_integer 3] [])|reflexivity].
Defined.

(** X25. The implementations of an operator under different keys live side
    by side: registering an implementation under one key leaves a call
    under another key, for which the operator already has an
    implementation, exactly as it was. *)
Theorem implementations_under_other_keys_are_kept `{Host} (qualified_name : string)
    (key other : DispatchKey) (func impl : CppFunction) (args : list cpp_arg)
    (self : OperatorRegistry) (op : OperatorRegistration) (w : World) :
  find_operator qualified_name self = Some op →
  implementations op !! other = Some impl →
  key ≠ other →
  execute_operator_with_args qualified_name other args
    (register_implementation qualified_name key func self) w
  = execute_operator_with_args qualified_name other args self w ∧
  execute_operator qualified_name other
    (register_implementation qualified_name key func self) w
  = execute_operator qualified_name other self w.
Proof.
  intros Hop Himpl Hne.
  destruct (find_operator_register_implementation qualified_name key func self)
    as (op' & Hop' & _ & Hrest).
  assert (implementations op' !! other = Some impl) as Himpl'.
  { rewrite Hrest by done. by rewrite Hop. }
  split.
  - rewrite (execute_with_args_exact _ _ _ _ _ _ _ Hop' Himpl').
    by rewrite (execute_with_args_exact _ _ _ _ _ _ _ Hop Himpl).
  - rewrite (execute_exact _ _ _ _ _ _ Hop' Himpl').
    by rewrite (execute_exact _ _ _ _ _ _ Hop Himpl).
Qed.

Lemma implementations_under_other_keys_are_kept_witness :
  execute_operator_with_args (H := DemoRegistry.H) "ns::mul" CPU []
    (register_implementation "ns::mul" Undefined CppFunction_default
       DemoRegistry.operators) []
  = (Returns (FunctionResult_of_IValue (IInt 6)), ["mul/cpu"]).
Proof.
  destruct (implementations_under_other_keys_are_kept (H := DemoRegistry.H) "ns::mul"
              Undefined CPU CppFunction_default _ [] DemoRegistry.operators _ []
              eq_refl eq_refl) as [Hcall _].
  - done.
  - rewrite Hcall. reflexivity.
Defined.
